(** * scripts/extract-website-schema.py

    A shallow embedding of the schema extraction script: the reader
    ([split_lines]), the block filter (the loop over [enumerate(lines)] with
    [skip_model] / [brace_count]), the relation scrubber (the loop with
    [in_crit_user]) and the writer, followed by the properties of the
    specification that were checked against them.

    Python's [str] is modelled by [string]; a character is a code point
    below 256, which is the range Rocq's [ascii] covers.  [int] is [Z]. *)

From Stdlib Require Import String Ascii List ZArith Lia Bool Arith.
From Stdlib Require Import DecimalString Sorted.
Import ListNotations.

Local Open Scope string_scope.
Local Open Scope list_scope.

(** ** Characters and strings *)

Module Str.

(** [Py_UNICODE_ISSPACE] on the code points below 256: what [\s] of [re]
    matches and what [str.strip()] removes. *)
Definition is_space (c : ascii) : bool :=
  let n := nat_of_ascii c in
  (((9 <=? n) && (n <=? 13)) || ((28 <=? n) && (n <=? 32))
   || (n =? 133) || (n =? 160))%nat.

(** [\w] of [re] on a [str] pattern: alphanumeric code points and the
    underscore, on the code points below 256. *)
Definition is_word (c : ascii) : bool :=
  let n := nat_of_ascii c in
  (((48 <=? n) && (n <=? 57)) || ((65 <=? n) && (n <=? 90)) || (n =? 95)
   || ((97 <=? n) && (n <=? 122))
   || (n =? 170) || (n =? 178) || (n =? 179) || (n =? 181) || (n =? 185)
   || (n =? 186) || ((188 <=? n) && (n <=? 190))
   || ((192 <=? n) && (n <=? 214)) || ((216 <=? n) && (n <=? 246))
   || ((248 <=? n) && (n <=? 255)))%nat.

Definition newline : ascii := "010"%char.
Definition carriage_return : ascii := "013"%char.

Fixpoint take_while (p : ascii -> bool) (s : string) : string :=
  match s with
  | EmptyString => EmptyString
  | String c r => if p c then String c (take_while p r) else EmptyString
  end.

Fixpoint drop_while (p : ascii -> bool) (s : string) : string :=
  match s with
  | EmptyString => EmptyString
  | String c r => if p c then drop_while p r else s
  end.

(** The rest of [s] after the literal [p], when [s] starts with [p]. *)
Fixpoint after_prefix (p s : string) : option string :=
  match p, s with
  | EmptyString, _ => Some s
  | String a p', String b s' =>
      if Ascii.eqb a b then after_prefix p' s' else None
  | String _ _, EmptyString => None
  end.

(** [s.startswith(p)] *)
Definition startswith (p s : string) : bool := String.prefix p s.

(** [x in s] for strings: [x] occurs in [s] as a substring. *)
Fixpoint contains (x s : string) : bool :=
  String.prefix x s ||
  match s with
  | EmptyString => false
  | String _ r => contains x r
  end.

(** [s.count(c)] for a one-character [c]. *)
Fixpoint count (c : ascii) (s : string) : nat :=
  match s with
  | EmptyString => 0
  | String d r => (if Ascii.eqb c d then 1 else 0) + count c r
  end.

Definition lstrip (s : string) : string := drop_while is_space s.

Fixpoint rstrip (s : string) : string :=
  match s with
  | EmptyString => EmptyString
  | String c r =>
      match rstrip r with
      | EmptyString => if is_space c then EmptyString else String c EmptyString
      | r' => String c r'
      end
  end.

(** [s.strip()] *)
Definition strip (s : string) : string := rstrip (lstrip s).

(** [content.split('\n')] *)
Fixpoint split_lines (s : string) : list string :=
  match s with
  | EmptyString => [EmptyString]
  | String c r =>
      if Ascii.eqb c newline then EmptyString :: split_lines r
      else match split_lines r with
           | h :: t => String c h :: t
           | [] => [String c EmptyString]
           end
  end.

(** ['\n'.join(ls)] *)
Definition join_lines (ls : list string) : string :=
  String.concat (String newline EmptyString) ls.

(** The newline translation of a file opened for reading in text mode with
    the default [newline=None]: ["\r\n"] and a lone ["\r"] become ["\n"]. *)
Fixpoint universal_newlines (s : string) : string :=
  match s with
  | EmptyString => EmptyString
  | String c r =>
      if Ascii.eqb c carriage_return then
        match r with
        | String d r' =>
            if Ascii.eqb d newline then String newline (universal_newlines r')
            else String newline (universal_newlines r)
        | EmptyString => String newline EmptyString
        end
      else String c (universal_newlines r)
  end.

End Str.

(** ** The block filter *)

(** [exclude_models] *)
Definition exclude_models : list string :=
  [ "RpgPlayer"; "RpgSession"; "RpgHistory"; "RpgTimeline"; "RpgAltHistory";
    "RpgAsset"; "RpgTile"; "RpgExpansion"; "RpgExpansionAccess"; "RpgSheet";
    "RpgBoard"; "RpgThing"; "RpgCreature"; "RpgWorld"; "RpgWorldWiki";
    "RpgWorldWikiRevision"; "RpgCampaign"; "CampaignMember"; "RpgType";
    "RpgTable"; "RpgCard"; "RpgDeck"; "RpgRule"; "RpgEvent"; "RpgGoal";
    "RpgMode"; "RpgSystem"; "RpgActivity"; "RpgSubSystem"; "RpgAttribute";
    "RpgLocation"; "RpgBook"; "RpgVoxel"; "FoundryLicense"; "FoundryInstance";
    "FoundryWorldSnapshot" ].

(** [model_name in exclude_models] *)
Definition excluded (model_name : string) : bool :=
  existsb (String.eqb model_name) exclude_models.

(** [re.match(r'^model\s+(\w+)\s*{', line)], returning [group(1)].

    The classes [\s] and [\w] are disjoint and the brace is in neither, so
    the greedy runs are the only way the pattern can match: the scan below
    takes the longest run of each class in turn ([model_match_regex] relates
    it to the pattern read as a set of decompositions of the line). *)
Definition model_match (line : string) : option string :=
  match Str.after_prefix "model" line with
  | None => None
  | Some r1 =>
      match Str.take_while Str.is_space r1 with
      | EmptyString => None
      | String _ _ =>
          let r2 := Str.drop_while Str.is_space r1 in
          match Str.take_while Str.is_word r2 with
          | EmptyString => None
          | String _ _ as name =>
              let r3 := Str.drop_while Str.is_word r2 in
              match Str.drop_while Str.is_space r3 with
              | String c _ => if Ascii.eqb c "{"%char then Some name else None
              | EmptyString => None
              end
          end
      end
  end.

(** The pattern read as the set of ways a line decomposes into the literal
    [model], a non-empty run of [\s], a non-empty run of [\w] (the group), a
    run of [\s] and the brace.  This is what the regex engine searches, with
    backtracking, for a first solution. *)
Fixpoint all_chars (p : ascii -> bool) (s : string) : bool :=
  match s with
  | EmptyString => true
  | String c r => p c && all_chars p r
  end.

Definition regex_match (line name : string) : Prop :=
  exists ws ws' rest : string,
    line = ("model" ++ ws ++ name ++ ws' ++ "{" ++ rest)%string
    /\ ws <> EmptyString /\ all_chars Str.is_space ws = true
    /\ name <> EmptyString /\ all_chars Str.is_word name = true
    /\ all_chars Str.is_space ws' = true.

(** The three variables the first loop carries from line to line. *)
Record filter_state : Type := mk_filter_state {
  skip_model : bool;
  current_model : option string;
  brace_count : Z
}.

(** The values before the loop: [False], [None], [0]. *)
Definition filter_init : filter_state :=
  {| skip_model := false; current_model := None; brace_count := 0 |}.

(** One iteration of the first loop on [line]: the new state, and whether the
    line is appended to [output_lines]. *)
Definition filter_step (st : filter_state) (line : string)
  : filter_state * bool :=
  match model_match line with
  | Some model_name =>
      if excluded model_name then
        ({| skip_model := true; current_model := Some model_name;
            brace_count := 1 |}, false)
      else
        ({| skip_model := false; current_model := Some model_name;
            brace_count := 1 |}, true)
  | None =>
      if skip_model st then
        let bc := (brace_count st
                   + Z.of_nat (Str.count "{"%char line)
                   - Z.of_nat (Str.count "}"%char line))%Z in
        if (bc <=? 0)%Z then
          ({| skip_model := false; current_model := None;
              brace_count := bc |}, false)
        else
          ({| skip_model := true; current_model := current_model st;
              brace_count := bc |}, false)
      else (st, true)
  end.

(** ** The relation scrubber *)

Definition crit_user_prefix : string := "model CritUser".

Definition rpg_fragments : list string :=
  [ "ownedWorlds"; "rpgPlayer"; "RpgWorld"; "RpgPlayer";
    "authoredWorldWikiPages"; "lastEditedWorldWikiPages";
    "worldWikiRevisions"; "RpgWorldWiki" ].

(** [any(x in line for x in [...])] *)
Definition has_rpg_fragment (line : string) : bool :=
  existsb (fun x => Str.contains x line) rpg_fragments.

Definition note_line_1 : string :=
  "  // NOTE: RPG-related relations (rpgPlayer, ownedWorlds, worldWiki) are now in".

Definition note_line_2 : string :=
  "  // the separate Core Concepts database and accessed via the unified facade".

(** The lines appended before the closing brace of the CritUser model. *)
Definition note_lines : list string := [ ""; note_line_1; note_line_2 ].

(** What an iteration of the second loop does with its line. *)
Inductive scrub_action : Type :=
| Keep        (* final_lines.append(line) *)
| CloseBlock  (* the three note lines, then the line *)
| Drop.       (* continue *)

(** One iteration of the second loop: the new [in_crit_user] and the action. *)
Definition scrub_step (in_crit_user : bool) (line : string)
  : bool * scrub_action :=
  if Str.startswith crit_user_prefix line then (true, Keep)
  else if in_crit_user && String.eqb (Str.strip line) "}" then
    (false, CloseBlock)
  else if in_crit_user && has_rpg_fragment line then (in_crit_user, Drop)
  else (in_crit_user, Keep).

(** ** The two loops

    The loops are written once over entries of any type [A] that carry their
    line ([text]), so that they run on the plain lines, as the script does,
    and on lines paired with their position in the input, as
    [enumerate(lines)] offers them. *)

Section Loops.

Context {A : Type}.
Variable text : A -> string.
Variable fresh : string -> A.

Fixpoint filter_loop (st : filter_state) (ls : list A)
  : filter_state * list A :=
  match ls with
  | [] => (st, [])
  | a :: rest =>
      let (st', keep) := filter_step st (text a) in
      let (fin, out) := filter_loop st' rest in
      (fin, if keep then a :: out else out)
  end.

Definition scrub_emit (act : scrub_action) (a : A) : list A :=
  match act with
  | Keep => [a]
  | CloseBlock => map fresh note_lines ++ [a]
  | Drop => []
  end.

Fixpoint scrub_loop (in_crit_user : bool) (ls : list A) : bool * list A :=
  match ls with
  | [] => (in_crit_user, [])
  | a :: rest =>
      let (b, act) := scrub_step in_crit_user (text a) in
      let (fin, out) := scrub_loop b rest in
      (fin, scrub_emit act a ++ out)
  end.

End Loops.

(** [output_lines] after the first loop. *)
Definition output_lines (lines : list string) : list string :=
  snd (filter_loop (fun l => l) filter_init lines).

(** The first loop's variables after the last line. *)
Definition filter_final (lines : list string) : filter_state :=
  fst (filter_loop (fun l => l) filter_init lines).

(** The second loop alone, from [in_crit_user = False]. *)
Definition scrub (out : list string) : list string :=
  snd (scrub_loop (fun l => l) (fun s => s) false out).

(** [final_lines] after the second loop. *)
Definition final_lines (lines : list string) : list string :=
  scrub (output_lines lines).

(** *** Lines with their input position *)

(** [enumerate(lines)]; the position is [Some i], so that the lines the
    scrubber adds can be told apart ([None]). *)
Abbreviation entry := (option nat * string)%type (only parsing).

Fixpoint enumerate_from (i : nat) (lines : list string) : list entry :=
  match lines with
  | [] => []
  | l :: rest => (Some i, l) :: enumerate_from (S i) rest
  end.

Definition enumerate (lines : list string) : list entry :=
  enumerate_from 0 lines.

Definition output_entries (lines : list string) : list entry :=
  snd (filter_loop snd filter_init (enumerate lines)).

(** A line the scrubber adds: it has no input position. *)
Definition added (s : string) : entry := (None, s).

Definition final_entries (lines : list string) : list entry :=
  snd (scrub_loop snd added false (output_entries lines)).

(** The input positions of the lines that reach a list of entries. *)
Fixpoint positions (es : list entry) : list nat :=
  match es with
  | [] => []
  | (Some i, _) :: rest => i :: positions rest
  | (None, _) :: rest => positions rest
  end.

(** ** Reading, writing and reporting *)

Module IO.

(** What a path of the file system holds: text that decodes as UTF-8, or
    bytes that do not. *)
Inductive file : Type :=
| Utf8 (text : string)
| NotUtf8.

(** The exceptions the script can end with. *)
Inductive exn : Type :=
| FileNotFoundError (path : string)
| UnicodeDecodeError (path : string)
| PermissionError (path : string).

(** The world the script runs in: the files, the paths that cannot be opened
    for writing, and what has been printed so far. *)
Record world : Type := mk_world {
  files : string -> option file;
  unwritable : string -> bool;
  stdout : list string
}.

Inductive outcome (A : Type) : Type :=
| Returned (a : A)
| Raised (e : exn).
Arguments Returned {A} a.
Arguments Raised {A} e.

(** Computations that change the world and may raise. *)
Definition M (A : Type) : Type := world -> outcome A * world.

Definition ret {A : Type} (a : A) : M A := fun w => (Returned a, w).

Definition bind {A B : Type} (m : M A) (k : A -> M B) : M B :=
  fun w =>
    match m w with
    | (Returned a, w') => k a w'
    | (Raised e, w') => (Raised e, w')
    end.

Notation "x <- m ;; k" := (bind m (fun x => k))
  (at level 61, m at next level, right associativity).
Notation "m ;;; k" := (bind m (fun _ => k))
  (at level 61, right associativity).

(** [with open(path, 'r', encoding='utf-8') as f: f.read()] *)
Definition read_text (path : string) : M string :=
  fun w =>
    match files w path with
    | None => (Raised (FileNotFoundError path), w)
    | Some NotUtf8 => (Raised (UnicodeDecodeError path), w)
    | Some (Utf8 text) => (Returned (Str.universal_newlines text), w)
    end.

Definition set_file (path : string) (f : file) (w : world) : world :=
  {| files := fun p => if String.eqb p path then Some f else files w p;
     unwritable := unwritable w;
     stdout := stdout w |}.

(** [with open(path, 'w', encoding='utf-8') as f: f.write(text)] *)
Definition write_text (path text : string) : M unit :=
  fun w =>
    if unwritable w path then (Raised (PermissionError path), w)
    else (Returned tt, set_file path (Utf8 text) w).

(** [print(msg)] *)
Definition print (msg : string) : M unit :=
  fun w =>
    (Returned tt,
     {| files := files w; unwritable := unwritable w;
        stdout := stdout w ++ [msg] |}).

End IO.

Import IO.

Definition input_path : string := "prisma/schema-full-original.txt".
Definition output_path : string := "prisma/schema.prisma".

(** [str(n)] of a natural number, as the f-string formats it. *)
Definition decimal (n : nat) : string :=
  NilEmpty.string_of_uint (Nat.to_uint n).

(** The script, from the first [open] to the last [print]. *)
Definition main : M unit :=
  content <- read_text input_path ;;
  let lines := Str.split_lines content in
  let final := final_lines lines in
  write_text output_path (Str.join_lines final) ;;;
  print "Website schema extracted successfully" ;;;
  print ("Total lines: " ++ decimal (List.length final)).


(** ** Blocks, as the specification describes them

    A block is a run of lines that begins with a declaration line and ends at
    the line where the running count of opening minus closing braces returns
    to zero or below.  The count is textual, as the filter's is. *)

(** Opening minus closing braces of one line. *)
Definition net_braces (line : string) : Z :=
  (Z.of_nat (Str.count "{"%char line) - Z.of_nat (Str.count "}"%char line))%Z.

(** The run [ls], entered at depth [z], returns to depth zero or below on its
    last line and on no line before it. *)
Fixpoint closes_on_last (z : Z) (ls : list string) : bool :=
  match ls with
  | [] => false
  | l :: rest =>
      let z' := (z + net_braces l)%Z in
      match rest with
      | [] => (z' <=? 0)%Z
      | _ :: _ => (0 <? z')%Z && closes_on_last z' rest
      end
  end.

(** The depth stays positive on every line of [ls], entered at depth [z]. *)
Fixpoint never_closes (z : Z) (ls : list string) : bool :=
  match ls with
  | [] => true
  | l :: rest =>
      let z' := (z + net_braces l)%Z in
      (0 <? z')%Z && never_closes z' rest
  end.

(** [block] is the block of a model declared with [name]: its first line is
    the declaration, its last line is the matching closing line. *)
Definition model_block (name : string) (block : list string) : bool :=
  match block with
  | [] => false
  | decl :: _ =>
      match model_match decl with
      | Some n => String.eqb n name && closes_on_last 0 block
      | None => false
      end
  end.

(** No line of [ls] is a declaration of an excluded model. *)
Definition no_excluded_decl (ls : list string) : Prop :=
  Forall (fun l => forall n, model_match l = Some n -> excluded n = false) ls.

(** No line of [ls] matches the declaration pattern. *)
Definition no_decl (ls : list string) : Prop :=
  Forall (fun l => model_match l = None) ls.

(** No line of [ls] starts with the prefix the scrubber looks for. *)
Definition no_target_prefix (ls : list string) : Prop :=
  Forall (fun l => Str.startswith crit_user_prefix l = false) ls.

(** The document ends inside an excluded block: after the declaration [decl]
    of an excluded model no further declaration follows and the filter's
    count, started at 1, stays positive to the last line. *)
Definition unterminated (lines : list string) : Prop :=
  exists pre decl rest name,
    lines = pre ++ decl :: rest
    /\ model_match decl = Some name
    /\ excluded name = true
    /\ no_decl rest
    /\ never_closes 1 rest = true.

(** Some line starting with the scrubber's prefix is followed, later in
    [out], by a line whose trimmed content is the closing brace. *)
Definition target_closed (out : list string) : Prop :=
  exists l1 decl l2 close l3,
    out = l1 ++ decl :: l2 ++ close :: l3
    /\ Str.startswith crit_user_prefix decl = true
    /\ Str.strip close = "}".

(** Some line of [out] starting with the scrubber's prefix has no closing
    line after it. *)
Definition target_left_open (out : list string) : Prop :=
  exists l1 decl l2,
    out = l1 ++ decl :: l2
    /\ Str.startswith crit_user_prefix decl = true
    /\ Forall (fun l => Str.strip l <> "}") l2.

(** [in_crit_user] after the second loop has run over [out]. *)
Definition scrub_mode_after (out : list string) : bool :=
  fst (scrub_loop (fun l => l) (fun s => s) false out).

(** How many times the second loop, entered with [in_crit_user = b], takes
    its closing branch on [ls]. *)
Fixpoint closings (b : bool) (ls : list string) : nat :=
  match ls with
  | [] => 0
  | l :: rest =>
      let (b', act) := scrub_step b l in
      (match act with CloseBlock => 1 | _ => 0 end) + closings b' rest
  end.

(** The number of lines of a text, counted as the reader splits it. *)
Definition line_count (text : string) : nat :=
  List.length (Str.split_lines text).

(** ** Auxiliary predicates on characters and strings *)

(** [r] is empty or starts with a character outside [p]: a run of [p] ends
    where [r] begins. *)
Definition stops (p : ascii -> bool) (r : string) : Prop :=
  match r with
  | EmptyString => True
  | String c _ => p c = false
  end.

(** The characters of a line whose trimmed content is the closing brace. *)
Definition space_or_brace (c : ascii) : bool :=
  Str.is_space c || Ascii.eqb c "}"%char.

(** The line holds no newline character. *)
Definition no_newline (l : string) : bool :=
  all_chars (fun c => negb (Ascii.eqb c Str.newline)) l.

(** The first character of [x] is outside [q]. *)
Definition starts_outside (q : ascii -> bool) (x : string) : bool :=
  match x with
  | EmptyString => false
  | String a _ => negb (q a)
  end.

(** ** Auxiliary notions for the loops *)





(** What the three variables of the first loop tell about each other: skip
    mode is on exactly when [current_model] names an excluded model, and the
    count is positive while it is on. *)
Definition filter_state_ok (st : filter_state) : Prop :=
  skip_model st
  = match current_model st with
    | Some n => excluded n
    | None => false
    end
  /\ (skip_model st = true -> (0 < brace_count st)%Z).

(** * Properties *)

(** ** The script on small inputs *)

(** The scenario of the specification: the excluded model between two kept
    ones. *)
Example output_lines_ex :
  output_lines [ "model A {"; "  x Int"; "}"; "model RpgPlayer {";
                 "  y String"; "}"; "model B {"; "  z Int"; "}" ]
  = [ "model A {"; "  x Int"; "}"; "model B {"; "  z Int"; "}" ].
Proof. reflexivity. Qed.

(** The scenario of the specification: a relation line before the closing
    brace of the target block. *)
Example final_lines_ex :
  final_lines [ "model CritUser {"; "  id Int"; "  rpgPlayer RpgPlayer?"; "}" ]
  = [ "model CritUser {"; "  id Int"; ""; note_line_1; note_line_2; "}" ].
Proof. reflexivity. Qed.

Example model_match_ex :
  model_match "model RpgPlayer {" = Some "RpgPlayer"
  /\ model_match "model   CritUser{ // x" = Some "CritUser"
  /\ model_match "  model A {" = None
  /\ model_match "model A" = None
  /\ model_match "modelA {" = None
  /\ model_match "model A-B {" = None.
Proof. repeat split; reflexivity. Qed.

Example decimal_ex : decimal 106 = "106".
Proof. reflexivity. Qed.

(** ** Strings *)

Lemma space_not_word c : Str.is_space c = true -> Str.is_word c = false.
Proof.
  destruct c as [[] [] [] [] [] [] [] []]; vm_compute; congruence.
Qed.

Lemma take_drop_while p s :
  (Str.take_while p s ++ Str.drop_while p s)%string = s.
Proof.
  induction s as [|c r IH]; simpl; [reflexivity|].
  destruct (p c); simpl; [now rewrite IH | reflexivity].
Qed.

Lemma all_chars_take_while p s : all_chars p (Str.take_while p s) = true.
Proof.
  induction s as [|c r IH]; simpl; [reflexivity|].
  destruct (p c) eqn:E; simpl; [now rewrite E | reflexivity].
Qed.

Lemma stops_drop_while p s : stops p (Str.drop_while p s).
Proof.
  induction s as [|c r IH]; simpl; [exact I|].
  destruct (p c) eqn:E; simpl; [exact IH | exact E].
Qed.

Lemma take_while_run p ws r :
  all_chars p ws = true -> stops p r -> Str.take_while p (ws ++ r)%string = ws.
Proof.
  induction ws as [|c w IH]; simpl; intros Hall Hstop.
  - destruct r as [|d r']; simpl in *; [reflexivity | now rewrite Hstop].
  - apply andb_true_iff in Hall as [Hc Hw]. rewrite Hc. f_equal. now apply IH.
Qed.

Lemma drop_while_run p ws r :
  all_chars p ws = true -> stops p r -> Str.drop_while p (ws ++ r)%string = r.
Proof.
  induction ws as [|c w IH]; simpl; intros Hall Hstop.
  - destruct r as [|d r']; simpl in *; [reflexivity | now rewrite Hstop].
  - apply andb_true_iff in Hall as [Hc Hw]. rewrite Hc. now apply IH.
Qed.

Lemma after_prefix_app p s r :
  Str.after_prefix p s = Some r <-> s = (p ++ r)%string.
Proof.
  revert s; induction p as [|a p IH]; intros s; simpl.
  - split; congruence.
  - destruct s as [|b s]; [split; discriminate|].
    destruct (Ascii.eqb_spec a b) as [->|Hne].
    + rewrite IH. split; congruence.
    + split; [discriminate | congruence].
Qed.

(** The scan [model_match] and the pattern agree: a line matches with group
    [name] in some decomposition exactly when the scan returns [name].  In
    particular every successful path of the backtracking search captures the
    same group. *)
Lemma model_match_regex line name :
  regex_match line name <-> model_match line = Some name.
Proof.
  unfold model_match. split.
  - intros (ws & ws' & rest & -> & Hws & Hsp & Hname & Hw & Hsp').
    assert (Hs1 : stops Str.is_space (name ++ ws' ++ "{" ++ rest)%string).
    { destruct name as [|c n]; [congruence|]. simpl in *.
      apply andb_true_iff in Hw as [Hc _].
      destruct (Str.is_space c) eqn:E; [|reflexivity].
      apply space_not_word in E. congruence. }
    assert (Hs2 : stops Str.is_word (ws' ++ "{" ++ rest)%string).
    { destruct ws' as [|c w]; simpl in *; [reflexivity|].
      apply andb_true_iff in Hsp' as [Hc _]. now apply space_not_word. }
    assert (Hs3 : stops Str.is_space ("{" ++ rest)%string) by reflexivity.
    replace (Str.after_prefix "model" _) with
      (Some (ws ++ name ++ ws' ++ "{" ++ rest)%string)
      by (symmetry; now apply after_prefix_app).
    rewrite (take_while_run _ ws _ Hsp Hs1), (drop_while_run _ ws _ Hsp Hs1).
    destruct ws as [|c0 w0]; [congruence|].
    rewrite (take_while_run _ name _ Hw Hs2), (drop_while_run _ name _ Hw Hs2).
    destruct name as [|c1 n1]; [congruence|].
    rewrite (drop_while_run _ ws' _ Hsp' Hs3). reflexivity.
  - destruct (Str.after_prefix "model" line) as [r1|] eqn:E1; [|discriminate].
    apply after_prefix_app in E1.
    pose proof (take_drop_while Str.is_space r1) as D1.
    pose proof (all_chars_take_while Str.is_space r1) as A1.
    destruct (Str.take_while Str.is_space r1) as [|c0 w0] eqn:T1; [discriminate|].
    set (r2 := Str.drop_while Str.is_space r1) in *.
    pose proof (take_drop_while Str.is_word r2) as D2.
    pose proof (all_chars_take_while Str.is_word r2) as A2.
    destruct (Str.take_while Str.is_word r2) as [|c1 n1] eqn:T2; [discriminate|].
    set (r3 := Str.drop_while Str.is_word r2) in *.
    pose proof (take_drop_while Str.is_space r3) as D3.
    pose proof (all_chars_take_while Str.is_space r3) as A3.
    destruct (Str.drop_while Str.is_space r3) as [|c r4] eqn:T3; [discriminate|].
    destruct (Ascii.eqb_spec c "{"%char) as [->|]; [|discriminate].
    intros [= <-].
    exists (String c0 w0), (Str.take_while Str.is_space r3), r4.
    repeat split; try assumption; try discriminate.
    rewrite E1. f_equal. rewrite <- D1. f_equal.
    change (String c1 n1 ++ Str.take_while Str.is_space r3 ++ "{" ++ r4)%string
      with (String c1 n1 ++ Str.take_while Str.is_space r3 ++ String "{" r4)%string.
    rewrite D3. symmetry. exact D2.
Qed.

(** ** The loops, piece by piece *)

Section LoopFacts.

Context {A : Type}.
Variable text : A -> string.
Variable fresh : string -> A.
Hypothesis text_fresh : forall s, text (fresh s) = s.

Lemma filter_loop_app st l1 l2 :
  filter_loop text st (l1 ++ l2) =
  (fst (filter_loop text (fst (filter_loop text st l1)) l2),
   snd (filter_loop text st l1)
   ++ snd (filter_loop text (fst (filter_loop text st l1)) l2)).
Proof.
  revert st; induction l1 as [|a l1 IH]; intros st; simpl.
  - now destruct (filter_loop text st l2).
  - destruct (filter_step st (text a)) as [st' keep].
    rewrite IH. destruct (filter_loop text st' l1) as [st1 o1]; simpl.
    now destruct keep.
Qed.

Lemma scrub_loop_app b l1 l2 :
  scrub_loop text fresh b (l1 ++ l2) =
  (fst (scrub_loop text fresh (fst (scrub_loop text fresh b l1)) l2),
   snd (scrub_loop text fresh b l1)
   ++ snd (scrub_loop text fresh (fst (scrub_loop text fresh b l1)) l2)).
Proof.
  revert b; induction l1 as [|a l1 IH]; intros b; simpl.
  - now destruct (scrub_loop text fresh b l2).
  - destruct (scrub_step b (text a)) as [b' act].
    rewrite IH. destruct (scrub_loop text fresh b' l1) as [b1 o1]; simpl.
    now rewrite app_assoc.
Qed.

(** Forgetting what the entries carry besides their line gives the run on
    the plain lines. *)
Lemma filter_loop_erase st ls :
  filter_loop (fun l => l) st (map text ls) =
  (fst (filter_loop text st ls), map text (snd (filter_loop text st ls))).
Proof.
  revert st; induction ls as [|a ls IH]; intros st; simpl; [reflexivity|].
  destruct (filter_step st (text a)) as [st' keep].
  rewrite IH. destruct (filter_loop text st' ls) as [fin out]; simpl.
  now destruct keep.
Qed.

Lemma scrub_loop_erase b ls :
  scrub_loop (fun l => l) (fun s => s) b (map text ls) =
  (fst (scrub_loop text fresh b ls),
   map text (snd (scrub_loop text fresh b ls))).
Proof.
  revert b; induction ls as [|a ls IH]; intros b; simpl; [reflexivity|].
  destruct (scrub_step b (text a)) as [b' act].
  rewrite IH. destruct (scrub_loop text fresh b' ls) as [fin out]; simpl.
  f_equal. rewrite map_app. f_equal.
  destruct act; simpl; now rewrite ?text_fresh.
Qed.

(** The filter only ever drops entries. *)
Lemma filter_loop_Forall (P : A -> Prop) st ls :
  Forall P ls -> Forall P (snd (filter_loop text st ls)).
Proof.
  revert st; induction ls as [|a ls IH]; intros st H; simpl; [constructor|].
  inversion H; subst.
  destruct (filter_step st (text a)) as [st' keep].
  specialize (IH st' ltac:(assumption)).
  destruct (filter_loop text st' ls) as [fin out]; simpl in *.
  destruct keep; [constructor|]; assumption.
Qed.

(** The scrubber drops entries and adds the note. *)
Lemma scrub_loop_Forall (P : A -> Prop) b ls :
  Forall P (map fresh note_lines) -> Forall P ls ->
  Forall P (snd (scrub_loop text fresh b ls)).
Proof.
  intros Hnote.
  revert b; induction ls as [|a ls IH]; intros b H; simpl; [constructor|].
  inversion H; subst.
  destruct (scrub_step b (text a)) as [b' act].
  specialize (IH b' ltac:(assumption)).
  destruct (scrub_loop text fresh b' ls) as [fin out]; simpl in *.
  apply Forall_app; split; [|assumption].
  destruct act; cbn [scrub_emit]; [now constructor | | constructor].
  apply Forall_app; split; [exact Hnote | now constructor].
Qed.

(** Outside skip mode, lines that declare no excluded model all pass. *)
Lemma filter_loop_keeps_all st ls :
  skip_model st = false ->
  no_excluded_decl (map text ls) ->
  snd (filter_loop text st ls) = ls
  /\ skip_model (fst (filter_loop text st ls)) = false.
Proof.
  revert st; induction ls as [|a ls IH]; intros st Hs H; simpl; [now split|].
  inversion H as [|? ? Ha Hls]; subst.
  unfold filter_step.
  destruct (model_match (text a)) as [n|] eqn:Em.
  - rewrite (Ha n eq_refl).
    destruct (IH {| skip_model := false; current_model := Some n;
                    brace_count := 1 |} eq_refl Hls) as [IH1 IH2].
    destruct (filter_loop text _ ls) as [fin out]; simpl in *.
    now subst.
  - rewrite Hs. destruct (IH st Hs Hls) as [IH1 IH2].
    destruct (filter_loop text st ls) as [fin out]; simpl in *.
    now subst.
Qed.

(** No declaration of an excluded model is ever appended. *)
Lemma filter_loop_no_excluded st ls :
  no_excluded_decl (map text (snd (filter_loop text st ls))).
Proof.
  revert st; induction ls as [|a ls IH]; intros st; simpl; [constructor|].
  destruct (filter_step st (text a)) as [st' keep] eqn:Es.
  specialize (IH st').
  destruct (filter_loop text st' ls) as [fin out]; simpl in *.
  destruct keep; [|exact IH].
  constructor; [|exact IH].
  intros n Hn. unfold filter_step in Es. rewrite Hn in Es.
  destruct (excluded n); [discriminate | reflexivity].
Qed.

(** Outside scrubbing mode, lines without the prefix pass untouched. *)
Lemma scrub_loop_inactive ls :
  no_target_prefix (map text ls) ->
  scrub_loop text fresh false ls = (false, ls).
Proof.
  induction ls as [|a ls IH]; intros H; simpl; [reflexivity|].
  inversion H as [|? ? Ha Hls]; subst.
  unfold scrub_step. rewrite Ha. simpl. now rewrite (IH Hls).
Qed.

End LoopFacts.

(** ** Lines and their input positions *)

Lemma enumerate_from_app k l1 l2 :
  enumerate_from k (l1 ++ l2) =
  enumerate_from k l1 ++ enumerate_from (k + List.length l1) l2.
Proof.
  revert k; induction l1 as [|l l1 IH]; intros k; simpl.
  - now rewrite Nat.add_0_r.
  - rewrite IH. now rewrite Nat.add_succ_r.
Qed.

Lemma map_snd_enumerate_from k ls : map snd (enumerate_from k ls) = ls.
Proof.
  revert k; induction ls as [|l ls IH]; intros k; simpl; [reflexivity|].
  now rewrite IH.
Qed.

Lemma positions_app es1 es2 :
  positions (es1 ++ es2) = positions es1 ++ positions es2.
Proof.
  induction es1 as [|[[i|] l] es1 IH]; simpl; [reflexivity| |assumption].
  now rewrite IH.
Qed.

Lemma positions_In i es :
  In i (positions es) <-> exists l, In (Some i, l) es.
Proof.
  induction es as [|[[j|] l] es IH]; simpl.
  - split; [tauto | intros [? []]].
  - rewrite IH. split.
    + intros [->|[l' H]]; [exists l; now left | exists l'; now right].
    + intros [l' [[= -> ->]|H]]; [now left | right; now exists l'].
  - rewrite IH. split.
    + intros [l' H]; exists l'; now right.
    + intros [l' [[=]|H]]; now exists l'.
Qed.

Lemma enumerate_from_In k ls i l :
  In (Some i, l) (enumerate_from k ls) <->
  k <= i /\ nth_error ls (i - k) = Some l.
Proof.
  revert k; induction ls as [|x ls IH]; intros k; simpl.
  - split; [tauto|]. intros [_ H]. now destruct (i - k).
  - rewrite IH. split.
    + intros [[= -> ->]|[Hk Hn]].
      * split; [lia|]. now rewrite Nat.sub_diag.
      * split; [lia|]. replace (i - k) with (S (i - S k)) by lia. exact Hn.
    + intros [Hk Hn]. destruct (i - k) as [|m] eqn:E.
      * left. simpl in Hn. injection Hn as ->. f_equal. f_equal. lia.
      * right. split; [lia|]. simpl in Hn.
        replace (i - S k) with m by lia. exact Hn.
Qed.

Lemma positions_enumerate_from k ls i :
  In i (positions (enumerate_from k ls)) <-> k <= i < k + List.length ls.
Proof.
  rewrite positions_In. split.
  - intros [l H]. apply enumerate_from_In in H as [Hk Hn].
    assert (i - k < List.length ls) by (apply nth_error_Some; congruence). lia.
  - intros [Hk Hl].
    destruct (nth_error ls (i - k)) as [l|] eqn:E.
    + exists l. apply enumerate_from_In. now split.
    + apply nth_error_None in E. lia.
Qed.

(** Every entry that leaves the filter entered it. *)
Lemma filter_loop_In {A : Type} (text : A -> string) st es a :
  In a (snd (filter_loop text st es)) -> In a es.
Proof.
  assert (H : Forall (fun e => In e es) (snd (filter_loop text st es))).
  { apply filter_loop_Forall. now apply Forall_forall. }
  rewrite Forall_forall in H. apply H.
Qed.

Lemma filter_positions_incl st es i :
  In i (positions (snd (filter_loop snd st es))) -> In i (positions es).
Proof.
  rewrite !positions_In. intros [l H]. exists l. eapply filter_loop_In, H.
Qed.

Lemma output_entries_erase lines :
  map snd (output_entries lines) = output_lines lines.
Proof.
  unfold output_entries, output_lines, enumerate.
  rewrite <- (map_snd_enumerate_from 0 lines) at 2.
  now rewrite filter_loop_erase.
Qed.

Lemma final_entries_erase lines :
  map snd (final_entries lines) = final_lines lines.
Proof.
  unfold final_entries, final_lines, scrub.
  rewrite <- output_entries_erase.
  now rewrite (scrub_loop_erase snd added).
Qed.

(** ** Skipping a block *)

Lemma filter_step_plain st line :
  model_match line = None -> skip_model st = false ->
  filter_step st line = (st, true).
Proof. intros Hm Hs. unfold filter_step. now rewrite Hm, Hs. Qed.

Lemma filter_step_skipping st line :
  model_match line = None -> skip_model st = true ->
  filter_step st line =
  (let bc := (brace_count st + net_braces line)%Z in
   if (bc <=? 0)%Z
   then {| skip_model := false; current_model := None; brace_count := bc |}
   else {| skip_model := true; current_model := current_model st;
           brace_count := bc |},
   false).
Proof.
  intros Hm Hs. unfold filter_step, net_braces. rewrite Hm, Hs. simpl.
  replace (brace_count st + Z.of_nat (Str.count "{" line)
           - Z.of_nat (Str.count "}" line))%Z
    with (brace_count st
          + (Z.of_nat (Str.count "{" line) - Z.of_nat (Str.count "}" line)))%Z
    by lia.
  now destruct (_ <=? 0)%Z.
Qed.

(** In skip mode, with the filter's count at least the textual depth [z], the
    lines of a run that closes on its last line are all dropped, provided
    none of them is a declaration. *)
Lemma filter_loop_skips_run {A : Type} (text : A -> string) st z es :
  skip_model st = true ->
  (z <= brace_count st)%Z ->
  no_decl (map text es) ->
  closes_on_last z (map text es) = true ->
  snd (filter_loop text st es) = [].
Proof.
  revert st z; induction es as [|a es IH]; intros st z Hs Hz Hd Hc;
    [reflexivity|].
  inversion Hd as [|? ? Ha Hes]; subst.
  cbn [filter_loop]. rewrite (filter_step_skipping st _ Ha Hs).
  destruct es as [|a' es'].
  - cbv zeta.
    now destruct (brace_count st + net_braces (text a) <=? 0)%Z.
  - cbn [map closes_on_last] in Hc.
    apply andb_true_iff in Hc as [Hpos Hc]. apply Z.ltb_lt in Hpos.
    cbv zeta.
    destruct (Z.leb_spec (brace_count st + net_braces (text a)) 0); [lia|].
    erewrite (surjective_pairing (filter_loop _ _ _)).
    rewrite (IH _ (z + net_braces (text a))%Z); simpl; trivial. lia.
Qed.

(** The same for a whole block of an excluded model. *)
Lemma filter_loop_skips_block {A : Type} (text : A -> string) st es name :
  model_block name (map text es) = true ->
  excluded name = true ->
  no_decl (tl (map text es)) ->
  (net_braces (hd "" (map text es)) <= 1)%Z ->
  snd (filter_loop text st es) = [].
Proof.
  destruct es as [|a es]; [discriminate|].
  cbn [map hd tl model_block]. intros Hb Hex Hd Hn.
  destruct (model_match (text a)) as [n|] eqn:Em; [|discriminate].
  apply andb_true_iff in Hb as [Hname Hc]. apply String.eqb_eq in Hname.
  subst n. cbn [filter_loop]. unfold filter_step. rewrite Em, Hex.
  erewrite (surjective_pairing (filter_loop _ _ _)). cbn [snd].
  destruct es as [|a' es']; [reflexivity|].
  cbn [closes_on_last map] in Hc.
  apply andb_true_iff in Hc as [_ Hc].
  eapply filter_loop_skips_run with (z := (0 + net_braces (text a))%Z);
    simpl; trivial.
Qed.

(** ** The block filter: excluded blocks *)

(** C1, as stated, fails: the declaration check comes before the skip check,
    so a declaration line inside an excluded block ends the skip.  Here the
    block of [RpgPlayer] is the whole document, by brace matching, and its
    lines at positions 1, 2 and 3 reach the output. *)
Lemma excluded_block_nested_decl_kept :
  let block := [ "model RpgPlayer {"; "model A {"; "}"; "}" ] in
  model_block "RpgPlayer" block = true
  /\ excluded "RpgPlayer" = true
  /\ positions (output_entries ([] ++ block ++ [])) = [1; 2; 3]
  /\ output_lines block = [ "model A {"; "}"; "}" ].
Proof. repeat split; reflexivity. Qed.

(** The filter's count starts at 1 whatever the declaration line holds: a
    declaration line that opens two braces is closed, for the filter, by the
    first closing brace, and the rest of the block is appended. *)
Example excluded_block_two_braces_kept :
  let block := [ "model RpgPlayer { {"; "}"; "  x Int"; "}" ] in
  model_block "RpgPlayer" block = true
  /\ positions (output_entries block) = [2; 3].
Proof. repeat split; reflexivity. Qed.

(** C1 (amended): for every document [pre ++ block ++ post] in which [block]
    is the block of an excluded model (declaration line through the line
    where the textual brace count returns to zero), no line of the block, by
    its position in the input, reaches the output of the block filter,
    provided no later line of the block matches the declaration pattern and
    the declaration line leaves at most one brace open. *)
Theorem excluded_block_dropped pre block post name :
  model_block name block = true ->
  excluded name = true ->
  no_decl (tl block) ->
  (net_braces (hd "" block) <= 1)%Z ->
  forall i, List.length pre <= i < List.length pre + List.length block ->
    ~ In i (positions (output_entries (pre ++ block ++ post))).
Proof.
  intros Hb Hex Hd Hn i Hi. unfold not.
  unfold output_entries, enumerate.
  rewrite !enumerate_from_app, !filter_loop_app. cbn [snd fst].
  rewrite !positions_app, !in_app_iff.
  rewrite (filter_loop_skips_block snd _
             (enumerate_from (0 + List.length pre) block) name);
    rewrite ?map_snd_enumerate_from; trivial.
  intros [H|[[]|H]]; apply filter_positions_incl in H;
    apply positions_enumerate_from in H; lia.
Qed.

Lemma excluded_block_dropped_witness :
  ~ In 2 (positions (output_entries
            ([ "// header" ] ++ [ "model RpgPlayer {"; "  id Int"; "}" ]
             ++ [ "model A {"; "}" ]))).
Proof.
  apply (excluded_block_dropped
           [ "// header" ] [ "model RpgPlayer {"; "  id Int"; "}" ]
           [ "model A {"; "}" ] "RpgPlayer").
  - reflexivity.
  - reflexivity.
  - repeat constructor.
  - vm_compute. discriminate.
  - simpl. lia.
Defined.

(** C5: the filter's count is set to 1 on the declaration line and the braces
    of that line are never counted, so the closing brace of a one-line block
    is missed: skip mode persists and the lines that follow are dropped, up
    to the next declaration.  Here the [enum] after the one-line excluded
    model is lost. *)
Theorem one_line_block_keeps_skipping :
  let lines := [ "model RpgPlayer { }"; ""; "enum Role {"; "  ADMIN";
                 "  USER"; "}"; ""; "model CritUser {"; "  id Int"; "}" ] in
  model_block "RpgPlayer" [ "model RpgPlayer { }" ] = true
  /\ filter_step filter_init "model RpgPlayer { }"
     = ({| skip_model := true; current_model := Some "RpgPlayer";
           brace_count := 1 |}, false)
  /\ skip_model (filter_final (firstn 7 lines)) = true
  /\ positions (output_entries lines) = [7; 8; 9]
  /\ output_lines lines = [ "model CritUser {"; "  id Int"; "}" ].
Proof. repeat split; reflexivity. Qed.

(** C9: a line that matches the declaration pattern resets the three
    variables whatever they were: the count becomes 1, skip mode becomes
    whether the declared model is excluded, and the line is appended exactly
    when it is not.  The run from such a line on does not depend on the state
    in which the line is reached. *)
Theorem declaration_resets_state st line name :
  model_match line = Some name ->
  let st' := {| skip_model := excluded name; current_model := Some name;
                brace_count := 1 |} in
  filter_step st line = (st', negb (excluded name))
  /\ forall rest,
       filter_loop (fun l => l) st (line :: rest) =
       (fst (filter_loop (fun l => l) st' rest),
        if excluded name then snd (filter_loop (fun l => l) st' rest)
        else line :: snd (filter_loop (fun l => l) st' rest)).
Proof.
  intros Hm st'.
  assert (Hs : filter_step st line = (st', negb (excluded name))).
  { unfold filter_step, st'. rewrite Hm. now destruct (excluded name). }
  split; [exact Hs|].
  intros rest. cbn [filter_loop]. rewrite Hs.
  destruct (filter_loop _ st' rest) as [fin out]. now destruct (excluded name).
Qed.

Lemma declaration_resets_state_witness :
  filter_step {| skip_model := true; current_model := Some "RpgPlayer";
                 brace_count := 3 |} "model CritUser {"
  = ({| skip_model := false; current_model := Some "CritUser";
        brace_count := 1 |}, true)
  /\ filter_step {| skip_model := true; current_model := Some "RpgPlayer";
                    brace_count := 3 |} "model RpgWorld {"
     = ({| skip_model := true; current_model := Some "RpgWorld";
           brace_count := 1 |}, false).
Proof.
  split.
  - apply (declaration_resets_state _ "model CritUser {" "CritUser").
    reflexivity.
  - apply (declaration_resets_state _ "model RpgWorld {" "RpgWorld").
    reflexivity.
Defined.

(** ** The block filter: the state after the last line *)

Lemma no_decl_cons l ls :
  no_decl (l :: ls) <-> model_match l = None /\ no_decl ls.
Proof.
  unfold no_decl. split.
  - intros H. inversion H; now subst.
  - intros [H1 H2]. now constructor.
Qed.

Lemma unterminated_cons l ls :
  unterminated (l :: ls) <->
  (exists name, model_match l = Some name /\ excluded name = true
                /\ no_decl ls /\ never_closes 1 ls = true)
  \/ unterminated ls.
Proof.
  unfold unterminated. split.
  - intros (pre & decl & rest & name & E & Hm & Hx & Hd & Hc).
    destruct pre as [|p pre]; simpl in E; injection E as -> ->.
    + left. now exists name.
    + right. now exists pre, decl, rest, name.
  - intros [(name & Hm & Hx & Hd & Hc)
           |(pre & decl & rest & name & -> & Hm & Hx & Hd & Hc)].
    + now exists [], l, ls, name.
    + now exists (l :: pre), decl, rest, name.
Qed.

(** Skip mode is on after the last line exactly when the run ended inside an
    excluded block, one declared in the run or the one it was entered in. *)
Lemma filter_loop_final_skip st ls :
  skip_model (fst (filter_loop (fun l => l) st ls)) = true <->
  unterminated ls
  \/ (skip_model st = true /\ no_decl ls
      /\ never_closes (brace_count st) ls = true).
Proof.
  revert st; induction ls as [|l ls IH]; intros st.
  - simpl. split.
    + intros H. right. repeat split; trivial. constructor.
    + intros [(pre & decl & rest & name & E & _)|[H _]]; [|exact H].
      now destruct pre.
  - cbn [filter_loop].
    destruct (filter_step st l) as [st' keep] eqn:Es.
    destruct (filter_loop _ st' ls) as [fin out] eqn:El.
    specialize (IH st'). rewrite El in IH. cbn [fst] in *. rewrite IH.
    rewrite unterminated_cons, no_decl_cons. cbn [never_closes].
    destruct (model_match l) as [n|] eqn:Em.
    + unfold filter_step in Es. rewrite Em in Es.
      destruct (excluded n) eqn:Ex; injection Es as <- <-; cbn [skip_model brace_count].
      * split.
        -- intros [H|(_ & Hd & Hc)]; [tauto|]. left. left. now exists n.
        -- intros [[(n' & [= <-] & _ & Hd & Hc)|H]|(_ & [[=] _] & _)];
             [right | left]; tauto.
      * split.
        -- intros [H|([=] & _)]. tauto.
        -- intros [[(n' & [= <-] & Hx & _)|H]|(_ & [[=] _] & _)];
             [congruence | tauto].
    + destruct (skip_model st) eqn:Hs.
      * rewrite (filter_step_skipping st l Em Hs) in Es. cbv zeta in Es.
        destruct (Z.leb_spec (brace_count st + net_braces l) 0) as [Hle|Hgt];
          injection Es as <- <-; cbn [skip_model brace_count].
        -- split.
           ++ intros [H|([=] & _)]. tauto.
           ++ intros [[(n' & [=] & _)|H]|(_ & _ & Hc)]; [tauto|].
              apply andb_true_iff in Hc as [Hc _]. apply Z.ltb_lt in Hc. lia.
        -- split.
           ++ intros [H|(_ & Hd & Hc)]; [tauto|]. right.
              repeat split; trivial. apply andb_true_iff. split; trivial.
              now apply Z.ltb_lt.
           ++ intros [[(n' & [=] & _)|H]|(_ & [_ Hd] & Hc)]; [tauto|].
              apply andb_true_iff in Hc as [_ Hc]. tauto.
      * rewrite (filter_step_plain st l Em Hs) in Es. injection Es as <- <-.
        rewrite Hs. split.
        -- intros [H|([=] & _)]. tauto.
        -- intros [[(n' & [=] & _)|H]|([=] & _)]. tauto.
Qed.





(** ** The closing line of the scrubber *)

Lemma all_chars_app p s1 s2 :
  all_chars p (s1 ++ s2)%string = all_chars p s1 && all_chars p s2.
Proof.
  induction s1 as [|c s1 IH]; simpl; [reflexivity|].
  now rewrite IH, andb_assoc.
Qed.

Lemma all_chars_weaken (p q : ascii -> bool) s :
  (forall c, p c = true -> q c = true) ->
  all_chars p s = true -> all_chars q s = true.
Proof.
  intros Hpq. induction s as [|c s IH]; simpl; [trivial|].
  rewrite !andb_true_iff. intros [Hc Hs]. split; auto.
Qed.

Lemma rstrip_empty r :
  Str.rstrip r = EmptyString -> all_chars Str.is_space r = true.
Proof.
  induction r as [|c r IH]; simpl; [trivial|].
  destruct (Str.rstrip r); [|discriminate].
  destruct (Str.is_space c); [|discriminate]. intros _. now apply IH.
Qed.

Lemma rstrip_brace m :
  Str.rstrip m = "}" -> all_chars space_or_brace m = true.
Proof.
  destruct m as [|c r]; simpl; [discriminate|].
  destruct (Str.rstrip r) as [|c' r'] eqn:E.
  - destruct (Str.is_space c); [discriminate|]. intros [= ->].
    apply rstrip_empty in E. apply andb_true_iff. split; [reflexivity|].
    revert E. apply all_chars_weaken. intros c H. unfold space_or_brace.
    now rewrite H.
  - discriminate.
Qed.

Lemma strip_brace_chars l :
  Str.strip l = "}" -> all_chars space_or_brace l = true.
Proof.
  unfold Str.strip, Str.lstrip. intros H. apply rstrip_brace in H.
  rewrite <- (take_drop_while Str.is_space l), all_chars_app, H, andb_true_r.
  apply (all_chars_weaken Str.is_space); [|apply all_chars_take_while].
  intros c Hc. unfold space_or_brace. now rewrite Hc.
Qed.

Lemma prefix_starts_outside q x l :
  all_chars q l = true -> starts_outside q x = true ->
  String.prefix x l = false.
Proof.
  destruct x as [|a x]; [discriminate|]. destruct l as [|c l]; [reflexivity|].
  simpl. rewrite andb_true_iff, negb_true_iff. intros [Hc _] Ha.
  destruct (ascii_dec a c) as [->|]; [congruence | reflexivity].
Qed.

Lemma contains_starts_outside q x l :
  all_chars q l = true -> starts_outside q x = true ->
  Str.contains x l = false.
Proof.
  intros Hl Hx. induction l as [|c l IH].
  - cbn [Str.contains]. now rewrite (prefix_starts_outside q x "").
  - cbn [Str.contains]. rewrite (prefix_starts_outside q x _ Hl Hx).
    simpl in Hl. apply andb_true_iff in Hl as [_ Hl]. now apply IH.
Qed.

(** A line whose trimmed content is the closing brace holds no fragment and
    does not start with the prefix. *)
Lemma closing_line_no_fragment l :
  Str.strip l = "}" -> has_rpg_fragment l = false.
Proof.
  intros H. apply strip_brace_chars in H. unfold has_rpg_fragment.
  assert (F : Forall (fun x => starts_outside space_or_brace x = true)
                     rpg_fragments) by (repeat constructor).
  induction F as [|x xs Hx _ IH]; simpl; [reflexivity|].
  now rewrite (contains_starts_outside _ x l H Hx).
Qed.

Lemma closing_line_no_prefix l :
  Str.strip l = "}" -> Str.startswith crit_user_prefix l = false.
Proof.
  intros H. apply strip_brace_chars in H.
  now apply (prefix_starts_outside space_or_brace).
Qed.

(** ** The scrubber, step by step *)

Lemma scrub_step_prefix b line :
  Str.startswith crit_user_prefix line = true ->
  scrub_step b line = (true, Keep).
Proof. intros H. unfold scrub_step. now rewrite H. Qed.

Lemma scrub_step_close line :
  Str.strip line = "}" -> scrub_step true line = (false, CloseBlock).
Proof.
  intros H. unfold scrub_step.
  rewrite (closing_line_no_prefix line H), H. reflexivity.
Qed.

Lemma scrub_step_inside line :
  Str.startswith crit_user_prefix line = false ->
  Str.strip line <> "}" ->
  scrub_step true line =
  (true, if has_rpg_fragment line then Drop else Keep).
Proof.
  intros Hp Hs. unfold scrub_step. rewrite Hp.
  apply String.eqb_neq in Hs. rewrite Hs. simpl.
  now destruct (has_rpg_fragment line).
Qed.

Lemma scrub_step_outside line :
  Str.startswith crit_user_prefix line = false ->
  scrub_step false line = (false, Keep).
Proof. intros Hp. unfold scrub_step. now rewrite Hp. Qed.

(** Inside the target block, before its closing line, the lines that hold a
    fragment are dropped and the others kept. *)
Lemma scrub_loop_inside body :
  no_target_prefix body ->
  Forall (fun l => Str.strip l <> "}") body ->
  scrub_loop (fun l => l) (fun s => s) true body =
  (true, filter (fun l => negb (has_rpg_fragment l)) body).
Proof.
  induction body as [|l body IH]; intros Hp Hs; [reflexivity|].
  inversion Hp; inversion Hs; subst.
  cbn [scrub_loop filter]. rewrite scrub_step_inside, IH by assumption.
  now destruct (has_rpg_fragment l).
Qed.

(** ** The relation scrubber: the target block *)

(** C2, as stated, fails on the number of lines: the scrubber appends three
    lines before the closing line, a blank line and a comment of two lines.
    No output of five lines with two added ones exists for this document. *)
Lemma note_is_three_lines :
  let lines := [ "model CritUser {"; "  id Int"; "}" ] in
  final_lines lines
  = [ "model CritUser {"; "  id Int"; ""; note_line_1; note_line_2; "}" ]
  /\ ~ (exists blank comment,
          final_lines lines
          = [ "model CritUser {"; "  id Int"; blank; comment; "}" ]).
Proof.
  split; [reflexivity|]. intros (blank & comment & H). discriminate H.
Qed.

(** The target block is found by the text at the start of the line, not by
    the declared name: a declaration of [CritUser] with two spaces after the
    keyword is not scrubbed. *)
Example target_by_prefix_only :
  model_match "model  CritUser {" = Some "CritUser"
  /\ final_lines [ "model  CritUser {"; "  rpgPlayer RpgPlayer?"; "}" ]
     = [ "model  CritUser {"; "  rpgPlayer RpgPlayer?"; "}" ].
Proof. split; reflexivity. Qed.

(** C2 (amended): when the filtered document holds exactly one line [decl]
    starting with [model CritUser], and [close] is the first later line
    whose trimmed content is the closing brace, the final output is the
    filtered document with the lines between [decl] and [close] that hold a
    forbidden fragment removed, and with exactly three lines inserted, once,
    immediately before [close]: a blank line and the two lines of the
    explanatory comment.  No line retained between [decl] and [close] holds a
    forbidden fragment. *)
Theorem target_block_scrubbed lines pre decl body close post :
  output_lines lines = pre ++ decl :: body ++ close :: post ->
  Str.startswith crit_user_prefix decl = true ->
  no_target_prefix pre -> no_target_prefix body -> no_target_prefix post ->
  Forall (fun l => Str.strip l <> "}") body ->
  Str.strip close = "}" ->
  let kept := filter (fun l => negb (has_rpg_fragment l)) body in
  final_lines lines
  = pre ++ decl :: kept ++ [ ""; note_line_1; note_line_2 ] ++ close :: post
  /\ Forall (fun l => has_rpg_fragment l = false) kept.
Proof.
  intros Hout Hdecl Hpre Hbody Hpost Hopen Hclose kept. split.
  - unfold final_lines, scrub. rewrite Hout.
    rewrite scrub_loop_app.
    rewrite (scrub_loop_inactive (fun l => l) _ pre)
      by (now rewrite map_id).
    cbn [fst snd scrub_loop]. rewrite (scrub_step_prefix _ _ Hdecl).
    rewrite scrub_loop_app, (scrub_loop_inside body Hbody Hopen).
    cbn [fst snd scrub_loop]. rewrite (scrub_step_close _ Hclose).
    rewrite (scrub_loop_inactive (fun l => l) _ post)
      by (now rewrite map_id).
    reflexivity.
  - apply Forall_forall. intros l Hl. apply filter_In in Hl as [_ Hl].
    now apply negb_true_iff.
Qed.

Lemma target_block_scrubbed_witness :
  final_lines [ "// users"; "model CritUser {"; "  id Int";
                "  rpgPlayer RpgPlayer?"; "}"; "model A {"; "}" ]
  = [ "// users" ] ++ "model CritUser {" :: [ "  id Int" ]
    ++ [ ""; note_line_1; note_line_2 ] ++ "}" :: [ "model A {"; "}" ].
Proof.
  apply (target_block_scrubbed
           [ "// users"; "model CritUser {"; "  id Int";
             "  rpgPlayer RpgPlayer?"; "}"; "model A {"; "}" ]
           [ "// users" ] "model CritUser {"
           [ "  id Int"; "  rpgPlayer RpgPlayer?" ] "}"
           [ "model A {"; "}" ]).
  - reflexivity.
  - reflexivity.
  - repeat constructor.
  - repeat constructor.
  - repeat constructor.
  - repeat constructor; discriminate.
  - reflexivity.
Defined.

(** C10, as stated, fails on its second half: the prefix test comes first,
    so a line that starts with [model CritUser] is appended in scrubbing mode
    even when it holds a forbidden fragment. *)
Lemma prefixed_line_with_fragment_kept :
  let line := "model CritUserRpgWorld {" in
  has_rpg_fragment line = true
  /\ scrub_step true line = (true, Keep)
  /\ final_lines [ "model CritUser {"; line; "  id Int"; "}" ]
     = [ "model CritUser {"; line; "  id Int";
         ""; note_line_1; note_line_2; "}" ].
Proof. repeat split; reflexivity. Qed.

(** C10 (amended): a line that starts with the text [model CritUser] enters
    scrubbing mode and is appended, whatever follows the prefix and whatever
    the mode was, a declaration of [CritUserProfile] included; in scrubbing
    mode, every line that does not start with that prefix and holds a
    forbidden fragment anywhere, a comment included, is dropped, and the mode
    stays on. *)
Theorem scrubber_prefix_and_fragments :
  (forall b line,
     Str.startswith crit_user_prefix line = true ->
     scrub_step b line = (true, Keep))
  /\ (forall line,
        Str.startswith crit_user_prefix line = false ->
        has_rpg_fragment line = true ->
        scrub_step true line = (true, Drop))
  /\ scrub_step false "model CritUserProfile {" = (true, Keep)
  /\ scrub_step true "  id Int // was RpgWorld" = (true, Drop).
Proof.
  split; [exact scrub_step_prefix|]. split; [|split; reflexivity].
  intros line Hp Hf.
  destruct (string_dec (Str.strip line) "}") as [Hs|Hs].
  - apply closing_line_no_fragment in Hs. congruence.
  - rewrite (scrub_step_inside line Hp Hs). now rewrite Hf.
Qed.

Lemma scrubber_prefix_and_fragments_witness :
  scrub_step false "model CritUserProfile {" = (true, Keep)
  /\ scrub_step true "  ownedWorlds RpgWorld[]" = (true, Drop).
Proof.
  split.
  - apply (proj1 scrubber_prefix_and_fragments false
             "model CritUserProfile {").
    reflexivity.
  - apply (proj1 (proj2 scrubber_prefix_and_fragments)
             "  ownedWorlds RpgWorld[]").
    + reflexivity.
    + reflexivity.
Defined.

(** ** Running the transformation on its own output *)

Lemma note_lines_no_decl : no_decl note_lines.
Proof. repeat constructor. Qed.

(** The output of the transformation holds no declaration of an excluded
    model, so the block filter leaves it as it is. *)
Lemma final_lines_no_excluded lines : no_excluded_decl (final_lines lines).
Proof.
  unfold final_lines, scrub, no_excluded_decl.
  apply scrub_loop_Forall.
  - repeat constructor; discriminate.
  - pose proof (filter_loop_no_excluded (fun l => l) filter_init lines) as H.
    now rewrite map_id in H.
Qed.

Lemma output_lines_fixed ls : no_excluded_decl ls -> output_lines ls = ls.
Proof.
  intros H. unfold output_lines.
  apply (filter_loop_keeps_all (fun l => l)); [reflexivity|].
  now rewrite map_id.
Qed.

Lemma scrub_step_blank : scrub_step true "" = (true, Keep).
Proof. reflexivity. Qed.

Lemma scrub_step_note_1 : scrub_step true note_line_1 = (true, Drop).
Proof. reflexivity. Qed.

Lemma scrub_step_note_2 : scrub_step true note_line_2 = (true, Keep).
Proof. reflexivity. Qed.

(** The four ways an iteration of the second loop can go. *)
Lemma scrub_step_cases b l :
  (Str.startswith crit_user_prefix l = true /\ scrub_step b l = (true, Keep))
  \/ (b = true /\ Str.strip l = "}" /\ scrub_step b l = (false, CloseBlock))
  \/ (b = true /\ Str.startswith crit_user_prefix l = false
      /\ Str.strip l <> "}" /\ has_rpg_fragment l = true
      /\ scrub_step b l = (true, Drop))
  \/ (Str.startswith crit_user_prefix l = false
      /\ (b = true -> Str.strip l <> "}" /\ has_rpg_fragment l = false)
      /\ scrub_step b l = (b, Keep)).
Proof.
  destruct (Str.startswith crit_user_prefix l) eqn:Hp.
  - left. split; [reflexivity | now apply scrub_step_prefix].
  - right. destruct b.
    + destruct (string_dec (Str.strip l) "}") as [Hs|Hs].
      * left. repeat split; trivial. now apply scrub_step_close.
      * right. rewrite (scrub_step_inside l Hp Hs).
        destruct (has_rpg_fragment l); [left | right]; repeat split; trivial.
    + right. right. rewrite (scrub_step_outside l Hp).
      repeat split; trivial; discriminate.
Qed.

(** A second run of the scrubber over the output of a first run goes through
    the same modes; it drops the first comment line of every note and appends
    a new note before every closing line, and nothing else changes. *)
Lemma scrub_twice b ls :
  let once := scrub_loop (fun l => l) (fun s => s) b ls in
  let twice := scrub_loop (fun l => l) (fun s => s) b (snd once) in
  fst twice = fst once
  /\ List.length (snd twice) = List.length (snd once) + 2 * closings b ls
  /\ (closings b ls = 0 -> snd twice = snd once).
Proof.
  revert b; induction ls as [|l ls IH]; intros b; [now cbn|].
  cbn [scrub_loop closings].
  destruct (scrub_step_cases b l)
    as [(Hp & E)|[(-> & Hs & E)|[(-> & Hp & Hs & Hf & E)|(Hp & Hb & E)]]];
    rewrite E.
  - specialize (IH true).
    destruct (scrub_loop _ _ true ls) as [fin out] eqn:E1.
    cbn [fst snd scrub_emit app scrub_loop] in *.
    rewrite (scrub_step_prefix b l Hp).
    destruct (scrub_loop _ _ true out) as [fin' out']. cbn in *.
    destruct IH as (H1 & H2 & H3). repeat split; [assumption | lia |].
    intros H. now rewrite H3.
  - specialize (IH false).
    destruct (scrub_loop _ _ false ls) as [fin out] eqn:E1.
    cbn [fst snd scrub_emit app scrub_loop map note_lines] in *.
    rewrite scrub_step_blank, scrub_step_note_1, scrub_step_note_2,
      (scrub_step_close l Hs).
    destruct (scrub_loop _ _ false out) as [fin' out']. cbn in *.
    destruct IH as (H1 & H2 & H3). repeat split; [assumption | lia |].
    discriminate.
  - specialize (IH true).
    destruct (scrub_loop _ _ true ls) as [fin out] eqn:E1.
    cbn [fst snd scrub_emit app] in *. exact IH.
  - specialize (IH b).
    destruct (scrub_loop _ _ b ls) as [fin out] eqn:E1.
    cbn [fst snd scrub_emit app scrub_loop] in *. rewrite E.
    destruct (scrub_loop _ _ b out) as [fin' out']. cbn in *.
    destruct IH as (H1 & H2 & H3). repeat split; [assumption | lia |].
    intros H. now rewrite H3.
Qed.

Lemma target_closed_cons l ls :
  target_closed (l :: ls) <->
  (Str.startswith crit_user_prefix l = true
   /\ Exists (fun c => Str.strip c = "}") ls)
  \/ target_closed ls.
Proof.
  unfold target_closed. split.
  - intros (l1 & decl & l2 & close & l3 & E & Hp & Hs).
    destruct l1 as [|x l1]; simpl in E; injection E as -> ->.
    + left. split; [assumption|]. apply Exists_exists. exists close.
      split; [|assumption]. apply in_app_iff. right. now left.
    + right. now exists l1, decl, l2, close, l3.
  - intros [[Hp Hex]|(l1 & decl & l2 & close & l3 & -> & Hp & Hs)].
    + apply Exists_exists in Hex as (close & Hin & Hs).
      apply in_split in Hin as (l2 & l3 & ->).
      now exists [], l, l2, close, l3.
    + now exists (l :: l1), decl, l2, close, l3.
Qed.

Lemma target_closed_Exists ls :
  target_closed ls -> Exists (fun c => Str.strip c = "}") ls.
Proof.
  intros (l1 & decl & l2 & close & l3 & -> & _ & Hs).
  apply Exists_exists. exists close. split; [|assumption].
  apply in_app_iff. right. right. apply in_app_iff. right. now left.
Qed.

(** In scrubbing mode a note is appended as soon as a closing line comes. *)
Lemma closings_inside ls :
  closings true ls = 0 <-> ~ Exists (fun c => Str.strip c = "}") ls.
Proof.
  induction ls as [|l ls IH]; cbn [closings].
  - split; [intros _ H; inversion H | reflexivity].
  - rewrite Exists_cons.
    destruct (scrub_step_cases true l)
      as [(Hp & E)|[(_ & Hs & E)|[(_ & Hp & Hs & Hf & E)|(Hp & Hb & E)]]];
      rewrite E.
    + cbn. rewrite IH. split; [|tauto]. intros H [Hs|H']; [|tauto].
      apply closing_line_no_prefix in Hs. congruence.
    + split; [discriminate | tauto].
    + cbn. rewrite IH. tauto.
    + cbn. rewrite IH. destruct (Hb eq_refl). tauto.
Qed.

(** Outside it, a note is appended exactly when some line with the prefix is
    followed by a closing line. *)
Lemma closings_outside ls :
  closings false ls = 0 <-> ~ target_closed ls.
Proof.
  induction ls as [|l ls IH]; cbn [closings].
  - split; [|reflexivity]. intros _ (l1 & ? & ? & ? & ? & E & _).
    now destruct l1.
  - rewrite target_closed_cons.
    destruct (scrub_step_cases false l)
      as [(Hp & E)|[([=] & _)|[([=] & _)|(Hp & Hb & E)]]]; rewrite E.
    + cbn. rewrite closings_inside. split.
      * intros H [[_ H']|H']; [tauto|]. apply target_closed_Exists in H'. tauto.
      * intros H H'. apply H. left. now split.
    + cbn. rewrite IH. split; [|tauto].
      intros H [[Hp' _]|H']; [congruence | tauto].
Qed.

Lemma target_left_open_cons l ls :
  target_left_open (l :: ls) <->
  (Str.startswith crit_user_prefix l = true
   /\ Forall (fun c => Str.strip c <> "}") ls)
  \/ target_left_open ls.
Proof.
  unfold target_left_open. split.
  - intros (l1 & decl & l2 & E & Hp & Hs).
    destruct l1 as [|x l1]; simpl in E; injection E as -> ->.
    + now left.
    + right. now exists l1, decl, l2.
  - intros [[Hp Hs]|(l1 & decl & l2 & -> & Hp & Hs)].
    + now exists [], l, ls.
    + now exists (l :: l1), decl, l2.
Qed.

(** The mode after a run of the second loop: on exactly when a line with the
    prefix, or the mode the run was entered in, is still waiting for its
    closing line. *)
Lemma scrub_loop_final_mode b ls :
  fst (scrub_loop (fun l => l) (fun s => s) b ls) = true <->
  target_left_open ls
  \/ (b = true /\ Forall (fun c => Str.strip c <> "}") ls).
Proof.
  revert b; induction ls as [|l ls IH]; intros b.
  - cbn. split.
    + intros ->. right. now split.
    + intros [(l1 & ? & ? & E & _)|[H _]]; [now destruct l1 | exact H].
  - cbn [scrub_loop]. rewrite target_left_open_cons, Forall_cons_iff.
    destruct (scrub_step_cases b l)
      as [(Hp & E)|[(-> & Hs & E)|[(-> & Hp & Hs & Hf & E)|(Hp & Hb & E)]]];
      rewrite E.
    + specialize (IH true).
      destruct (scrub_loop _ _ true ls) as [fin out]. cbn [fst] in *.
      rewrite IH. intuition auto.
    + specialize (IH false).
      destruct (scrub_loop _ _ false ls) as [fin out]. cbn [fst] in *.
      rewrite IH. pose proof (closing_line_no_prefix l Hs).
      intuition congruence.
    + specialize (IH true).
      destruct (scrub_loop _ _ true ls) as [fin out]. cbn [fst] in *.
      rewrite IH. intuition congruence.
    + specialize (IH b).
      destruct (scrub_loop _ _ b ls) as [fin out]. cbn [fst] in *.
      rewrite IH. intuition congruence.
Qed.

(** X11: the scrubber is outside scrubbing mode after [out] exactly when
    every line of [out] with the prefix has a closing line after it. *)
Lemma scrub_mode_after_off out :
  scrub_mode_after out = false <-> ~ target_left_open out.
Proof.
  unfold scrub_mode_after.
  pose proof (scrub_loop_final_mode false out) as H.
  destruct (fst (scrub_loop _ _ false out)).
  - split; [discriminate|]. intros Hn. exfalso. apply Hn.
    destruct (proj1 H eq_refl) as [?|[[=] _]]. assumption.
  - split; [|reflexivity]. intros _ Ho.
    assert (false = true) by (apply H; now left). discriminate.
Qed.

(** C4, as stated, fails: the first comment line of the note holds the
    fragments [rpgPlayer] and [ownedWorlds], so a second run drops it and
    then appends the three lines again before the closing line. *)
Lemma second_run_changes_output :
  let lines := [ "model CritUser {"; "  id Int"; "}" ] in
  final_lines lines
  = [ "model CritUser {"; "  id Int"; ""; note_line_1; note_line_2; "}" ]
  /\ final_lines (final_lines lines)
     = [ "model CritUser {"; "  id Int"; ""; note_line_2;
         ""; note_line_1; note_line_2; "}" ]
  /\ final_lines (final_lines lines) <> final_lines lines.
Proof. repeat split; try reflexivity. discriminate. Qed.

(** C4 (amended): on the output of the transformation the block filter
    removes nothing more, and the whole transformation applied to its own
    output yields that output unchanged exactly when the filtered document
    has no line starting with [model CritUser] that is followed by a line
    whose trimmed content is the closing brace, that is, when the first run
    appended no note.  Otherwise the second output is longer, by two lines
    for every note of the first run. *)
Theorem second_run lines :
  output_lines (final_lines lines) = final_lines lines
  /\ (final_lines (final_lines lines) = final_lines lines
      <-> ~ target_closed (output_lines lines))
  /\ List.length (final_lines (final_lines lines))
     = List.length (final_lines lines)
       + 2 * closings false (output_lines lines).
Proof.
  assert (H1 : output_lines (final_lines lines) = final_lines lines)
    by apply output_lines_fixed, final_lines_no_excluded.
  destruct (scrub_twice false (output_lines lines)) as (_ & Hlen & Hsame).
  cbv zeta in Hlen, Hsame.
  assert (H3 : List.length (final_lines (final_lines lines))
               = List.length (final_lines lines)
                 + 2 * closings false (output_lines lines)).
  { unfold final_lines at 1. rewrite H1. exact Hlen. }
  split; [exact H1|]. split; [|exact H3].
  rewrite <- closings_outside. split.
  - intros E. rewrite E in H3. lia.
  - intros E. unfold final_lines at 1. rewrite H1. now apply Hsame.
Qed.

(** ** Retained lines: content and order *)

Lemma positions_enumerate_sorted k ls :
  StronglySorted lt (positions (enumerate_from k ls)).
Proof.
  revert k; induction ls as [|l ls IH]; intros k; simpl; constructor.
  - apply IH.
  - apply Forall_forall. intros i Hi.
    apply positions_enumerate_from in Hi. lia.
Qed.

Lemma filter_positions_sorted st es :
  StronglySorted lt (positions es) ->
  StronglySorted lt (positions (snd (filter_loop snd st es))).
Proof.
  revert st; induction es as [|[[i|] l] es IH]; intros st H;
    [constructor| |]; cbn [filter_loop positions] in *.
  - apply StronglySorted_inv in H as [Hs Hall].
    destruct (filter_step st _) as [st' keep].
    pose proof (filter_positions_incl st' es) as Hin.
    specialize (IH st' Hs).
    destruct (filter_loop snd st' es) as [fin out]. cbn [snd] in *.
    destruct keep; [|exact IH]. cbn [positions]. constructor; [exact IH|].
    rewrite Forall_forall in *. auto.
  - destruct (filter_step st _) as [st' keep]. specialize (IH st' H).
    destruct (filter_loop snd st' es) as [fin out]. now destruct keep.
Qed.

Lemma scrub_entries_In b es e :
  In e (snd (scrub_loop snd added b es)) ->
  fst e = None \/ In e es.
Proof.
  assert (H : Forall (fun e => fst e = None \/ In e es)
                (snd (scrub_loop snd added b es))).
  { apply scrub_loop_Forall.
    - repeat constructor.
    - apply Forall_forall. now right. }
  rewrite Forall_forall in H. apply H.
Qed.

Lemma scrub_positions_incl b es i :
  In i (positions (snd (scrub_loop snd added b es))) ->
  In i (positions es).
Proof.
  rewrite !positions_In. intros [l H]. exists l.
  apply scrub_entries_In in H as [[=]|H]. exact H.
Qed.

Lemma scrub_positions_sorted b es :
  StronglySorted lt (positions es) ->
  StronglySorted lt
    (positions (snd (scrub_loop snd added b es))).
Proof.
  revert b; induction es as [|[[i|] l] es IH]; intros b H;
    [constructor| |]; cbn [scrub_loop positions] in *.
  - apply StronglySorted_inv in H as [Hs Hall].
    destruct (scrub_step b _) as [b' act].
    pose proof (scrub_positions_incl b' es) as Hin.
    specialize (IH b' Hs).
    destruct (scrub_loop snd _ b' es) as [fin out]. cbn [snd] in *.
    assert (Hc : StronglySorted lt (i :: positions out)).
    { constructor; [exact IH|]. rewrite Forall_forall in *. auto. }
    destruct act; cbn; assumption.
  - destruct (scrub_step b _) as [b' act]. specialize (IH b' H).
    destruct (scrub_loop snd _ b' es) as [fin out]. cbn [snd] in *.
    destruct act; cbn; assumption.
Qed.

(** The retained input lines of the final output are in input order, and
    each is the input line of its position. *)
Lemma final_entries_sorted lines :
  StronglySorted lt (positions (final_entries lines)).
Proof.
  apply scrub_positions_sorted, filter_positions_sorted,
    positions_enumerate_sorted.
Qed.

Lemma final_entries_content lines i l :
  In (Some i, l) (final_entries lines) -> nth_error lines i = Some l.
Proof.
  intros H. apply scrub_entries_In in H as [[=]|H].
  apply filter_loop_In, enumerate_from_In in H as [_ H].
  now rewrite Nat.sub_0_r in H.
Qed.

(** The block filter on a document cut before a declaration line. *)
Lemma output_entries_app pre rest :
  output_entries (pre ++ rest) =
  output_entries pre
  ++ snd (filter_loop snd (filter_final pre)
            (enumerate_from (List.length pre) rest)).
Proof.
  unfold output_entries, enumerate, filter_final.
  rewrite enumerate_from_app, filter_loop_app. cbn [snd].
  pose proof (filter_loop_erase snd filter_init (enumerate_from 0 pre)) as E.
  rewrite map_snd_enumerate_from in E. now rewrite E.
Qed.

(** C3, as stated, fails: the scrubber tests a prefix, so the block of a
    model named [CritUserProfile], which is neither excluded nor the target,
    loses a line and gains the note. *)
Lemma prefixed_block_modified :
  let block := [ "model CritUserProfile {"; "  ownedWorlds Int"; "}" ] in
  model_block "CritUserProfile" block = true
  /\ excluded "CritUserProfile" = false
  /\ final_lines block
     = [ "model CritUserProfile {"; ""; note_line_1; note_line_2; "}" ].
Proof. repeat split; reflexivity. Qed.

(** Scrubbing mode ends only at a line whose trimmed content is the closing
    brace; a target block closed on its declaration line leaves it on, and
    the next block is scrubbed. *)
Example unclosed_target_scrubs_next_block :
  final_lines [ "model CritUser { }"; "model A {"; "  ownedWorlds Int"; "}" ]
  = [ "model CritUser { }"; "model A {"; ""; note_line_1; note_line_2; "}" ].
Proof. reflexivity. Qed.

(** A filter that left skip mode too late, or not at all, would lose the
    lines that follow a closed excluded block; the script writes them. *)
Example lines_after_closed_block_kept :
  final_lines [ "model RpgPlayer {"; "  id Int"; "}"; ""; "enum Role {";
                "  ADMIN"; "}"; "// end" ]
  = [ ""; "enum Role {"; "  ADMIN"; "}"; "// end" ].
Proof. reflexivity. Qed.

Lemma filter_final_not_skipping pre :
  ~ unterminated pre -> skip_model (filter_final pre) = false.
Proof.
  intros H. unfold filter_final.
  destruct (skip_model (fst (filter_loop (fun l => l) filter_init pre)))
    eqn:E; [|reflexivity].
  apply filter_loop_final_skip in E as [E|([=] & _)]. contradiction.
Qed.

Lemma scrub_not_left_open out :
  ~ target_left_open out ->
  fst (scrub_loop (fun l => l) (fun s => s) false out) = false.
Proof.
  intros H.
  destruct (fst (scrub_loop (fun l => l) (fun s => s) false out)) eqn:E;
    [|reflexivity].
  apply scrub_loop_final_mode in E as [E|([=] & _)]. contradiction.
Qed.

(** C3 (amended): in a document [pre ++ run ++ post], a run of lines, be it
    the block of a model that is not excluded, any other block, or lines
    outside every block, appears in the final output line for line, as one
    contiguous run placed right after the output of [pre], provided that

    - no line of the run declares an excluded model and none starts with the
      text [model CritUser];
    - the run begins with a declaration of a model that is not excluded, or
      [pre] does not end inside an excluded block ([unterminated]);
    - every line with the prefix that the filter has kept from [pre] has its
      closing line within [pre].

    In every document the retained input lines appear in their input order,
    each identical to the input line at its position. *)
Theorem retained_run_identical pre run post :
  no_excluded_decl run ->
  no_target_prefix run ->
  (~ unterminated pre
   \/ exists n, model_match (hd "" run) = Some n /\ excluded n = false) ->
  ~ target_left_open (output_lines pre) ->
  let lines := pre ++ run ++ post in
  (exists tail,
     final_entries lines
     = final_entries pre ++ enumerate_from (List.length pre) run ++ tail
     /\ final_lines lines = final_lines pre ++ run ++ map snd tail)
  /\ StronglySorted lt (positions (final_entries lines))
  /\ (forall i l, In (Some i, l) (final_entries lines) ->
                  nth_error lines i = Some l)
  /\ map snd (final_entries lines) = final_lines lines.
Proof.
  intros Hd Hp Hstart Hopen lines.
  split; [|split; [apply final_entries_sorted|
                   split; [apply final_entries_content|
                           apply final_entries_erase]]].
  assert (Hkeep :
            snd (filter_loop snd (filter_final pre)
                   (enumerate_from (List.length pre) run))
            = enumerate_from (List.length pre) run).
  { destruct Hstart as [Hpre|(n & Hm & Hx)].
    - apply (filter_loop_keeps_all snd).
      + now apply filter_final_not_skipping.
      + now rewrite map_snd_enumerate_from.
    - destruct run as [|decl body]; [discriminate Hm|].
      cbn [hd] in Hm. inversion Hd as [|? ? _ Hbody]; subst.
      cbn [enumerate_from filter_loop snd]. unfold filter_step.
      rewrite Hm, Hx.
      erewrite (surjective_pairing (filter_loop _ _ _)). cbn [snd]. f_equal.
      apply (filter_loop_keeps_all snd); [reflexivity|].
      rewrite map_snd_enumerate_from. exact Hbody. }
  assert (E : exists tail,
             final_entries lines
             = final_entries pre
               ++ enumerate_from (List.length pre) run ++ tail).
  { unfold lines, final_entries.
    rewrite output_entries_app, enumerate_from_app, filter_loop_app.
    cbn [snd]. rewrite Hkeep, !scrub_loop_app. cbn [snd].
    assert (Hm : fst (scrub_loop snd added false
                        (output_entries pre)) = false).
    { apply scrub_not_left_open in Hopen.
      rewrite <- output_entries_erase in Hopen.
      now rewrite (scrub_loop_erase snd added) in Hopen. }
    rewrite Hm.
    rewrite (scrub_loop_inactive snd added
               (enumerate_from (List.length pre) run))
      by now rewrite map_snd_enumerate_from.
    cbn [fst snd]. eexists. reflexivity. }
  destruct E as [tail E]. exists tail. split; [exact E|].
  rewrite <- !final_entries_erase, E, !map_app.
  now rewrite map_snd_enumerate_from.
Qed.

Lemma retained_run_identical_witness :
  exists tail,
    final_entries ([ "model CritUser {"; "  rpgPlayer RpgPlayer?"; "}";
                     "model RpgPlayer {"; "  id Int"; "}" ]
                   ++ [ ""; "enum Role {"; "  ADMIN"; "}"; "model A {";
                        "  x Int"; "}" ]
                   ++ [ "model RpgWorld {"; "}" ])
    = final_entries [ "model CritUser {"; "  rpgPlayer RpgPlayer?"; "}";
                      "model RpgPlayer {"; "  id Int"; "}" ]
      ++ enumerate_from 6 [ ""; "enum Role {"; "  ADMIN"; "}"; "model A {";
                            "  x Int"; "}" ]
      ++ tail
    /\ final_lines ([ "model CritUser {"; "  rpgPlayer RpgPlayer?"; "}";
                      "model RpgPlayer {"; "  id Int"; "}" ]
                    ++ [ ""; "enum Role {"; "  ADMIN"; "}"; "model A {";
                         "  x Int"; "}" ]
                    ++ [ "model RpgWorld {"; "}" ])
       = final_lines [ "model CritUser {"; "  rpgPlayer RpgPlayer?"; "}";
                       "model RpgPlayer {"; "  id Int"; "}" ]
         ++ [ ""; "enum Role {"; "  ADMIN"; "}"; "model A {"; "  x Int"; "}" ]
         ++ map snd tail.
Proof.
  apply (retained_run_identical
           [ "model CritUser {"; "  rpgPlayer RpgPlayer?"; "}";
             "model RpgPlayer {"; "  id Int"; "}" ]
           [ ""; "enum Role {"; "  ADMIN"; "}"; "model A {"; "  x Int"; "}" ]
           [ "model RpgWorld {"; "}" ]).
  - repeat constructor; intros n H; vm_compute in H;
      first [discriminate H | injection H as <-; reflexivity].
  - repeat constructor.
  - left. intros (p & d & r & n & E & Hm & Hx & _ & Hc).
    repeat (destruct p as [|? p];
            [ injection E as <- <-; vm_compute in Hm;
              first [ discriminate Hm
                    | injection Hm as <-; vm_compute in Hx, Hc;
                      first [discriminate Hx | discriminate Hc] ]
            | injection E as _ E ]).
    destruct p; discriminate E.
  - change (output_lines _)
      with [ "model CritUser {"; "  rpgPlayer RpgPlayer?"; "}" ].
    intros (p & d & r & E & Hp & Hs).
    repeat (destruct p as [|? p];
            [ injection E as <- <-; vm_compute in Hp;
              first [ discriminate Hp
                    | apply Forall_inv_tail, Forall_inv in Hs;
                      apply Hs; reflexivity ]
            | injection E as _ E ]).
    destruct p; discriminate E.
Defined.

(** ** Splitting and joining *)

Lemma split_lines_nonempty s : Str.split_lines s <> [].
Proof.
  induction s as [|c r IH]; simpl; [discriminate|].
  destruct (Ascii.eqb c Str.newline); [discriminate|].
  destruct (Str.split_lines r); discriminate.
Qed.

Lemma split_lines_no_newline s :
  Forall (fun l => no_newline l = true) (Str.split_lines s).
Proof.
  induction s as [|c r IH]; simpl; [repeat constructor|].
  destruct (Ascii.eqb c Str.newline) eqn:E; [now constructor|].
  destruct (Str.split_lines r) as [|h t].
  - repeat constructor. unfold no_newline. simpl. now rewrite E.
  - inversion IH; subst. constructor; [|assumption].
    unfold no_newline in *. simpl. now rewrite E.
Qed.

Lemma split_lines_single x :
  no_newline x = true -> Str.split_lines x = [x].
Proof.
  unfold no_newline. induction x as [|c x IH]; simpl; [reflexivity|].
  rewrite andb_true_iff, negb_true_iff. intros [Hc Hx].
  now rewrite Hc, (IH Hx).
Qed.

Lemma split_lines_app_newline x r :
  no_newline x = true ->
  Str.split_lines (x ++ String Str.newline r)%string = x :: Str.split_lines r.
Proof.
  unfold no_newline. induction x as [|c x IH]; simpl; [reflexivity|].
  rewrite andb_true_iff, negb_true_iff. intros [Hc Hx].
  now rewrite Hc, (IH Hx).
Qed.

(** Splitting the joined text gives the lines back, when there is at least
    one line and no line holds a newline. *)
Lemma split_join ls :
  ls <> [] -> Forall (fun l => no_newline l = true) ls ->
  Str.split_lines (Str.join_lines ls) = ls.
Proof.
  unfold Str.join_lines.
  induction ls as [|x ls IH]; intros Hne Hall; [congruence|].
  inversion Hall as [|? ? Hx Hls]; subst.
  destruct ls as [|y ls]; cbn [String.concat].
  - now apply split_lines_single.
  - cbn [String.append].
    rewrite (split_lines_app_newline x _ Hx). f_equal.
    apply IH; [discriminate | assumption].
Qed.

Lemma final_lines_no_newline lines :
  Forall (fun l => no_newline l = true) lines ->
  Forall (fun l => no_newline l = true) (final_lines lines).
Proof.
  intros H. unfold final_lines, scrub, output_lines.
  apply scrub_loop_Forall; [repeat constructor|].
  now apply filter_loop_Forall.
Qed.

(** ** The whole run *)

(** C7: when the input file is read and the output file can be written, the
    run succeeds, the output file holds the final lines joined by newlines,
    and, the final line sequence being non-empty, the number of lines of that
    text equals the number of final lines, which is the number printed. *)
Theorem reported_line_count w text :
  files w input_path = Some (Utf8 text) ->
  unwritable w output_path = false ->
  let final := final_lines (Str.split_lines (Str.universal_newlines text)) in
  final <> [] ->
  exists w',
    main w = (Returned tt, w')
    /\ files w' output_path = Some (Utf8 (Str.join_lines final))
    /\ line_count (Str.join_lines final) = List.length final
    /\ stdout w'
       = stdout w
         ++ [ "Website schema extracted successfully";
              ("Total lines: " ++ decimal (List.length final))%string ].
Proof.
  intros Hr Hw final Hne.
  eexists. split; [|split; [|split]].
  - unfold main, bind, read_text, write_text, print. rewrite Hr.
    cbn [files unwritable stdout set_file]. rewrite Hw. reflexivity.
  - reflexivity.
  - unfold line_count. rewrite split_join; trivial.
    apply final_lines_no_newline, split_lines_no_newline.
  - cbn [stdout]. now rewrite <- app_assoc.
Qed.

Lemma reported_line_count_witness :
  exists w',
    main {| files := fun p => if String.eqb p input_path
                              then Some (Utf8 "model A {") else None;
            unwritable := fun _ => false;
            stdout := [] |}
    = (Returned tt, w')
    /\ files w' output_path = Some (Utf8 "model A {")
    /\ line_count "model A {" = 1
    /\ stdout w' = [ "Website schema extracted successfully";
                     "Total lines: 1" ].
Proof.
  apply (reported_line_count
           {| files := fun p => if String.eqb p input_path
                                then Some (Utf8 "model A {") else None;
              unwritable := fun _ => false;
              stdout := [] |} "model A {").
  - reflexivity.
  - reflexivity.
  - vm_compute. discriminate.
Defined.

(** When every line is dropped the printed count is 0, while the text
    written is empty and reads back as one empty line. *)
Example empty_output_count :
  final_lines (Str.split_lines "model RpgPlayer {") = []
  /\ line_count (Str.join_lines []) = 1.
Proof. split; reflexivity. Qed.

(** C8: when the input file is missing or does not decode, the run ends with
    the exception of the read and the world is as it was: no file is written,
    the output file included, and nothing is printed. *)
Theorem read_failure_writes_nothing w :
  (files w input_path = None ->
   main w = (Raised (FileNotFoundError input_path), w))
  /\ (files w input_path = Some NotUtf8 ->
      main w = (Raised (UnicodeDecodeError input_path), w)).
Proof.
  split; intros H; unfold main, bind, read_text; now rewrite H.
Qed.

Lemma read_failure_writes_nothing_witness :
  let w := {| files := fun p => if String.eqb p output_path
                                then Some (Utf8 "model Old {") else None;
              unwritable := fun _ => false;
              stdout := [] |} in
  main w = (Raised (FileNotFoundError input_path), w).
Proof.
  intros w. apply (proj1 (read_failure_writes_nothing w)). reflexivity.
Defined.

(** * Further properties of the script *)

(** ** The first loop *)

Lemma filter_step_ok st line :
  filter_state_ok st -> filter_state_ok (fst (filter_step st line)).
Proof.
  intros [H1 H2]. unfold filter_step, filter_state_ok.
  destruct (model_match line) as [n|].
  - destruct (excluded n) eqn:Ex; cbn [fst skip_model current_model
      brace_count]; rewrite Ex; split; trivial; try discriminate; lia.
  - destruct (skip_model st) eqn:Hs;
      [|cbn [fst]; rewrite Hs; split; assumption].
    cbv zeta. destruct (Z.leb_spec
      (brace_count st + Z.of_nat (Str.count "{" line)
       - Z.of_nat (Str.count "}" line)) 0);
      cbn [fst skip_model current_model brace_count]; split; trivial;
      try discriminate; intros _; lia.
Qed.

Lemma filter_loop_ok {A : Type} (text : A -> string) st ls :
  filter_state_ok st -> filter_state_ok (fst (filter_loop text st ls)).
Proof.
  revert st; induction ls as [|a ls IH]; intros st H; [exact H|].
  cbn [filter_loop]. pose proof (filter_step_ok st (text a) H) as H'.
  destruct (filter_step st (text a)) as [st' keep]. specialize (IH st' H').
  now destruct (filter_loop text st' ls).
Qed.

(** X1: whatever the document, after any number of its lines the variables
    of the first loop agree: [skip_model] is on exactly when [current_model]
    names an excluded model, and then [brace_count] is positive. *)
Theorem filter_state_invariant lines k :
  filter_state_ok (filter_final (firstn k lines)).
Proof.
  apply filter_loop_ok. split; [reflexivity | discriminate].
Qed.

(** X2: no line that declares an excluded model is ever written, neither by
    the first loop nor by the second. *)
Theorem no_excluded_declaration_written lines :
  no_excluded_decl (output_lines lines)
  /\ no_excluded_decl (final_lines lines).
Proof.
  split; [|apply final_lines_no_excluded].
  pose proof (filter_loop_no_excluded (fun l => l) filter_init lines) as H.
  now rewrite map_id in H.
Qed.

Lemma filter_loop_keeps_decl st k ls i l n :
  In (Some i, l) (enumerate_from k ls) ->
  model_match l = Some n -> excluded n = false ->
  In (Some i, l) (snd (filter_loop snd st (enumerate_from k ls))).
Proof.
  revert st k; induction ls as [|x ls IH]; intros st k Hin Hm Hx; [easy|].
  cbn [enumerate_from filter_loop] in *.
  destruct Hin as [[= <- <-]|Hin].
  - cbn [snd]. unfold filter_step. rewrite Hm, Hx.
    destruct (filter_loop snd _ _). now left.
  - destruct (filter_step st (snd (Some k, x))) as [st' keep].
    specialize (IH st' (S k) Hin Hm Hx).
    destruct (filter_loop snd st' _) as [fin out]. cbn [snd] in *.
    destruct keep; [now right | assumption].
Qed.

(** X3: the first loop keeps every line that declares a model outside the
    exclusion set, wherever it stands, inside an unfinished skip included. *)
Theorem kept_declaration_never_dropped lines i l n :
  nth_error lines i = Some l ->
  model_match l = Some n -> excluded n = false ->
  In (Some i, l) (output_entries lines) /\ In l (output_lines lines).
Proof.
  intros Hn Hm Hx.
  assert (H : In (Some i, l) (output_entries lines)).
  { apply (filter_loop_keeps_decl _ 0 lines i l n); trivial.
    apply enumerate_from_In. split; [lia|]. now rewrite Nat.sub_0_r. }
  split; [exact H|]. rewrite <- output_entries_erase.
  apply (in_map snd) in H. exact H.
Qed.

Lemma kept_declaration_never_dropped_witness :
  In (Some 2, "model A {")
     (output_entries [ "model RpgPlayer {"; "  a {"; "model A {"; "}" ])
  /\ In "model A {"
        (output_lines [ "model RpgPlayer {"; "  a {"; "model A {"; "}" ]).
Proof.
  apply (kept_declaration_never_dropped
           [ "model RpgPlayer {"; "  a {"; "model A {"; "}" ] 2
           "model A {" "A").
  - reflexivity.
  - reflexivity.
  - reflexivity.
Defined.

(** X4: the first loop returns a document unchanged exactly when no line of
    it declares an excluded model; hence running it on its own output changes
    nothing. *)
Theorem block_filter_fixed_points lines :
  (output_lines lines = lines <-> no_excluded_decl lines)
  /\ output_lines (output_lines lines) = output_lines lines.
Proof.
  pose proof (filter_loop_no_excluded (fun l => l) filter_init) as H.
  split; [split|].
  - intros E. specialize (H lines). rewrite map_id in H.
    fold (output_lines lines) in H. now rewrite E in H.
  - apply output_lines_fixed.
  - apply output_lines_fixed. specialize (H lines). now rewrite map_id in H.
Qed.

(** Outside skip mode the rest of the state does not matter. *)
Lemma filter_loop_not_skipping {A : Type} (text : A -> string) st1 st2 ls :
  skip_model st1 = false -> skip_model st2 = false ->
  snd (filter_loop text st1 ls) = snd (filter_loop text st2 ls).
Proof.
  revert st1 st2; induction ls as [|a ls IH]; intros st1 st2 H1 H2;
    [reflexivity|].
  cbn [filter_loop]. unfold filter_step.
  destruct (model_match (text a)) as [n|]; [reflexivity|].
  rewrite H1, H2. specialize (IH st1 st2 H1 H2).
  destruct (filter_loop text st1 ls), (filter_loop text st2 ls).
  cbn [snd] in *. now subst.
Qed.

(** X5: the first loop works block by block: a document cut right before a
    declaration line is filtered as its two parts, each on its own. *)
Theorem block_filter_cut_at_declaration pre decl rest n :
  model_match decl = Some n ->
  output_lines (pre ++ decl :: rest)
  = output_lines pre ++ output_lines (decl :: rest).
Proof.
  intros Hm. unfold output_lines. rewrite filter_loop_app. cbn [snd].
  f_equal. cbn [filter_loop]. unfold filter_step. now rewrite Hm.
Qed.

Lemma block_filter_cut_at_declaration_witness :
  output_lines ([ "model RpgPlayer {"; "  a {" ] ++ "model A {" :: [ "}" ])
  = output_lines [ "model RpgPlayer {"; "  a {" ]
    ++ output_lines ("model A {" :: [ "}" ]).
Proof.
  apply (block_filter_cut_at_declaration
           [ "model RpgPlayer {"; "  a {" ] "model A {" [ "}" ] "A").
  reflexivity.
Defined.

(** X6: everything that stands before the first declaration of an excluded
    model is written as it is, and what follows is filtered as if it were a
    document of its own. *)
Theorem block_filter_keeps_head pre rest :
  no_excluded_decl pre ->
  output_lines (pre ++ rest) = pre ++ output_lines rest.
Proof.
  intros H. unfold output_lines. rewrite filter_loop_app. cbn [snd].
  destruct (filter_loop_keeps_all (fun l => l) filter_init pre eq_refl)
    as [E1 E2]; [now rewrite map_id|].
  rewrite E1. f_equal. now apply filter_loop_not_skipping.
Qed.

Lemma block_filter_keeps_head_witness :
  output_lines ([ "generator client {"; "}"; "model A {"; "}" ]
                ++ [ "model RpgPlayer {"; "}"; "enum E {"; "}" ])
  = [ "generator client {"; "}"; "model A {"; "}" ]
    ++ output_lines [ "model RpgPlayer {"; "}"; "enum E {"; "}" ].
Proof.
  apply (block_filter_keeps_head
           [ "generator client {"; "}"; "model A {"; "}" ]
           [ "model RpgPlayer {"; "}"; "enum E {"; "}" ]).
  repeat constructor; intros n [= <-]; reflexivity.
Defined.

(** ** The second loop *)

(** X7: the second loop starts afresh at every line that begins with the
    text [model CritUser]: a document cut right before such a line is
    scrubbed as its two parts, each on its own. *)
Theorem scrub_cut_at_prefix pre decl rest :
  Str.startswith crit_user_prefix decl = true ->
  scrub (pre ++ decl :: rest) = scrub pre ++ scrub (decl :: rest).
Proof.
  intros Hp. unfold scrub. rewrite scrub_loop_app. cbn [snd scrub_loop].
  now rewrite !(scrub_step_prefix _ decl Hp).
Qed.

Lemma scrub_cut_at_prefix_witness :
  scrub ([ "model CritUser {"; "  a Int" ] ++ "model CritUserLog {" :: [ "}" ])
  = scrub [ "model CritUser {"; "  a Int" ]
    ++ scrub ("model CritUserLog {" :: [ "}" ]).
Proof.
  apply (scrub_cut_at_prefix [ "model CritUser {"; "  a Int" ]
           "model CritUserLog {" [ "}" ]).
  reflexivity.
Defined.

(** X8: everything that stands before the first line beginning with the
    text [model CritUser] passes the second loop untouched, forbidden
    fragments and closing braces included. *)
Theorem scrub_keeps_head pre rest :
  no_target_prefix pre -> scrub (pre ++ rest) = pre ++ scrub rest.
Proof.
  intros H. unfold scrub. rewrite scrub_loop_app.
  rewrite (scrub_loop_inactive (fun l => l) (fun s => s) pre)
    by (now rewrite map_id).
  reflexivity.
Qed.

Lemma scrub_keeps_head_witness :
  scrub ([ "model Wiki {"; "  owner RpgPlayer"; "}" ]
         ++ [ "model CritUser {"; "  rpgPlayer RpgPlayer?"; "}" ])
  = [ "model Wiki {"; "  owner RpgPlayer"; "}" ]
    ++ scrub [ "model CritUser {"; "  rpgPlayer RpgPlayer?"; "}" ].
Proof.
  apply (scrub_keeps_head [ "model Wiki {"; "  owner RpgPlayer"; "}" ]
           [ "model CritUser {"; "  rpgPlayer RpgPlayer?"; "}" ]).
  repeat constructor.
Defined.

Lemma scrub_loop_keeps_clean {A : Type} (text : A -> string)
      (fresh : string -> A) b es e :
  In e es -> has_rpg_fragment (text e) = false ->
  In e (snd (scrub_loop text fresh b es)).
Proof.
  revert b; induction es as [|a es IH]; intros b Hin Hf; [easy|].
  cbn [scrub_loop].
  destruct (scrub_step b (text a)) as [b' act] eqn:E.
  specialize (IH b').
  destruct (scrub_loop text fresh b' es) as [fin out]. cbn [snd] in *.
  apply in_app_iff. destruct Hin as [->|Hin]; [left | right; now apply IH].
  destruct (scrub_step_cases b (text e))
    as [(_ & E')|[(_ & _ & E')|[(_ & _ & _ & Hf' & _)|(_ & _ & E')]]];
    try congruence; rewrite E' in E; injection E as <- <-; cbn.
  - now left.
  - tauto.
  - now left.
Qed.

(** X9: the second loop drops nothing but lines that hold a forbidden
    fragment: every line the first loop has written and that holds none
    reaches the final output, with its input position. *)
Theorem scrubber_drops_only_fragments lines i l :
  In (Some i, l) (output_entries lines) ->
  has_rpg_fragment l = false ->
  In (Some i, l) (final_entries lines) /\ In l (final_lines lines).
Proof.
  intros Hin Hf.
  assert (H : In (Some i, l) (final_entries lines))
    by now apply (scrub_loop_keeps_clean snd added).
  split; [exact H|]. rewrite <- final_entries_erase.
  apply (in_map snd) in H. exact H.
Qed.

Lemma scrubber_drops_only_fragments_witness :
  In (Some 1, "  id Int")
     (final_entries [ "model CritUser {"; "  id Int"; "  w RpgWorld[]"; "}" ])
  /\ In "  id Int"
        (final_lines [ "model CritUser {"; "  id Int"; "  w RpgWorld[]"; "}" ]).
Proof.
  apply (scrubber_drops_only_fragments
           [ "model CritUser {"; "  id Int"; "  w RpgWorld[]"; "}" ] 1
           "  id Int").
  - right. left. reflexivity.
  - reflexivity.
Defined.






(** ** The declaration pattern *)

(** X12: the pattern captures at most one name on a line: whatever way the
    line decomposes into keyword, blanks, name, blanks and brace, the name is
    the one the scan returns. *)
Theorem declaration_capture_unique line n1 n2 :
  regex_match line n1 -> regex_match line n2 ->
  n1 = n2 /\ model_match line = Some n1.
Proof.
  intros H1 H2. apply model_match_regex in H1, H2.
  split; [congruence | exact H1].
Qed.

Lemma declaration_capture_unique_witness :
  "A" = "A" /\ model_match "model A {" = Some "A".
Proof.
  apply (declaration_capture_unique "model A {" "A" "A").
  - exists " ", " ", "". repeat split; discriminate.
  - exists " ", " ", "". repeat split; discriminate.
Defined.

(** ** The whole run, continued *)

Lemma concat_cons_char sep c h t :
  String.concat sep (String c h :: t) = String c (String.concat sep (h :: t)).
Proof. destruct t; reflexivity. Qed.

(** Joining what the reader has split gives the text back. *)
Lemma join_split s : Str.join_lines (Str.split_lines s) = s.
Proof.
  unfold Str.join_lines. induction s as [|c r IH]; [reflexivity|].
  cbn [Str.split_lines].
  destruct (Ascii.eqb_spec c Str.newline) as [->|Hc].
  - pose proof (split_lines_nonempty r) as Hne.
    destruct (Str.split_lines r) as [|h t]; [congruence|].
    cbn [String.concat]. cbn [String.concat] in IH. now rewrite IH.
  - pose proof (split_lines_nonempty r) as Hne.
    destruct (Str.split_lines r) as [|h t]; [congruence|].
    rewrite concat_cons_char. now rewrite IH.
Qed.

(** X13: a schema that declares no excluded model and has no line beginning
    with the text [model CritUser] is written out as it was read. *)
Theorem clean_schema_copied w text :
  files w input_path = Some (Utf8 text) ->
  unwritable w output_path = false ->
  let lines := Str.split_lines (Str.universal_newlines text) in
  no_excluded_decl lines -> no_target_prefix lines ->
  exists w',
    main w = (Returned tt, w')
    /\ files w' output_path = Some (Utf8 (Str.universal_newlines text))
    /\ stdout w'
       = stdout w
         ++ [ "Website schema extracted successfully";
              ("Total lines: " ++ decimal (List.length lines))%string ].
Proof.
  intros Hr Hw lines Hx Hp.
  assert (E : final_lines lines = lines).
  { unfold final_lines. rewrite (output_lines_fixed lines Hx).
    unfold scrub.
    rewrite (scrub_loop_inactive (fun l => l) (fun s => s) lines)
      by (now rewrite map_id).
    reflexivity. }
  eexists. split; [|split].
  - unfold main, bind, read_text, write_text, print. rewrite Hr.
    cbn [files unwritable stdout set_file]. rewrite Hw. reflexivity.
  - cbn [files]. fold lines. rewrite E. unfold lines.
    rewrite join_split. reflexivity.
  - cbn [stdout]. fold lines. rewrite E. now rewrite <- app_assoc.
Qed.

Lemma clean_schema_copied_witness :
  exists w',
    main {| files := fun p => if String.eqb p input_path
                              then Some (Utf8 "model A {") else None;
            unwritable := fun _ => false;
            stdout := [] |}
    = (Returned tt, w')
    /\ files w' output_path = Some (Utf8 "model A {")
    /\ stdout w' = [ "Website schema extracted successfully";
                     "Total lines: 1" ].
Proof.
  apply (clean_schema_copied
           {| files := fun p => if String.eqb p input_path
                                then Some (Utf8 "model A {") else None;
              unwritable := fun _ => false;
              stdout := [] |} "model A {").
  - reflexivity.
  - reflexivity.
  - repeat constructor; intros n [= <-]; reflexivity.
  - repeat constructor.
Defined.

(** X14: when the input is read but the output file cannot be opened for
    writing, the run ends with the exception of the write; nothing is
    printed and no file changes. *)
Theorem write_failure_prints_nothing w text :
  files w input_path = Some (Utf8 text) ->
  unwritable w output_path = true ->
  main w = (Raised (PermissionError output_path), w).
Proof.
  intros Hr Hw. unfold main, bind, read_text, write_text. rewrite Hr, Hw.
  reflexivity.
Qed.

Lemma write_failure_prints_nothing_witness :
  let w := {| files := fun p => if String.eqb p input_path
                                then Some (Utf8 "model A {") else None;
              unwritable := fun _ => true;
              stdout := [] |} in
  main w = (Raised (PermissionError output_path), w).
Proof.
  intros w. apply (write_failure_prints_nothing w "model A {"); reflexivity.
Defined.


